(** * Curvature interface of the Laplace library (laplace/curvature.py)

    A shallow embedding of [CurvatureInterface], [BackPackInterface],
    [BackPackGGN] and [BackPackEF], with the properties of the curvature
    quantities they return.

    Modelling choices.
    - Tensor entries are elements of an arbitrary real field [R]: the
      rounding of floating-point arithmetic is not represented, [0.5] is
      [2^-1] and [1.] is [1].
    - A tensor is its shape together with an entry function; a 1-D tensor
      is a sequence.  Parameter-shaped tensors are held in their row-major
      flattening, so [.flatten()] is the identity on the representation.
    - torch, BackPACK, [laplace.jacobians] and [laplace.matrix.Kron] are
      collaborators outside the file: they are the fields of one [Engine]
      record, on which every definition is parametrised.
    - Python state (the objects registered with [extend], the quantities
      BackPACK attaches to parameters, the passes run through the engine)
      is one [World] record, threaded by a state-and-exception monad in
      which an exception keeps the state reached so far. *)

From HB Require Import structures.
From Stdlib Require Import String.
From mathcomp Require Import ssreflect ssrfun ssrbool eqtype ssrnat seq choice.
From mathcomp Require Import fintype bigop order ssralg ssrnum rat.

Set Implicit Arguments.
Unset Strict Implicit.
Unset Printing Implicit Defensive.

Import Order.TTheory GRing.Theory Num.Theory.
Local Open Scope ring_scope.

(** ** Enumerations of the collaborators *)

(** [backpack.extensions]: the quantity a backward pass extracts. *)
Inductive Extension :=
  DiagGGNExact | DiagGGNMC | KFAC | KFLR | SumGradSquared | BatchGrad.

Definition Extension_code (e : Extension) : nat :=
  match e with
  | DiagGGNExact => 0 | DiagGGNMC => 1 | KFAC => 2
  | KFLR => 3 | SumGradSquared => 4 | BatchGrad => 5
  end.

Lemma Extension_code_inj : injective Extension_code.
Proof. by case; case. Qed.

HB.instance Definition _ := Equality.copy Extension (inj_type Extension_code_inj).

(** The [reduction] argument of the torch loss modules. *)
Inductive Reduction := ReduceNone | ReduceMean | ReduceSum.

(** [torch.nn.MSELoss(reduction=...)] and [torch.nn.CrossEntropyLoss(reduction=...)]. *)
Inductive LossFn :=
  | MSELoss (reduction : Reduction)
  | CrossEntropyLoss (reduction : Reduction).

(** The exceptions the code can raise. *)
Inductive Exception :=
  | AssertionError
  | ValueError (msg : string)
  | NotImplementedError
  | AttributeError (name : string)
  | ZeroDivisionError
  | RuntimeError (msg : string).

Inductive result (A : Type) :=
  | Ok (a : A)
  | Raise (e : Exception).
Arguments Raise {A} e.

(** A parameter tensor of a module: its identity and its number of entries. *)
Record Param := mkParam { pid : nat; numel : nat }.

Definition Param_pair (p : Param) : nat * nat := (pid p, numel p).
Definition pair_Param (x : nat * nat) : Param := mkParam x.1 x.2.
Lemma Param_pairK : cancel Param_pair pair_Param.
Proof. by case. Qed.

HB.instance Definition _ := Equality.copy Param (can_type Param_pairK).

(** One pass through the external engine. *)
Inductive Pass :=
  | ForwardPass (module_id : nat)
  | BackwardPass (ext : Extension)
  | JacobianPass (module_id : nat) (last_layer_only : bool).

Section Embedding.

Variable R : realFieldType.
Variables Input Target : Type.

(** ** Tensors *)

Record tensor2 := T2 { nrows : nat; ncols : nat; ent2 : nat -> nat -> R }.

Record tensor3 :=
  T3 { dim0 : nat; dim1 : nat; dim2 : nat; ent3 : nat -> nat -> nat -> R }.

(** [a * t] and [t * a] for a 1-D and a 2-D tensor. *)
Definition scale1 (a : R) (t : seq R) : seq R := [seq a * x | x <- t].

Definition scale2 (a : R) (t : tensor2) : tensor2 :=
  T2 (nrows t) (ncols t) (fun i j => a * ent2 t i j).

(** [t *= a], entrywise. *)
Definition imul (t : tensor2) (a : R) : tensor2 :=
  T2 (nrows t) (ncols t) (fun i j => ent2 t i j * a).

(** [t.T] *)
Definition transpose (t : tensor2) : tensor2 :=
  T2 (ncols t) (nrows t) (fun i j => ent2 t j i).

(** [a @ b]; the contracted dimension is read from the left operand. *)
Definition matmul (a b : tensor2) : tensor2 :=
  T2 (nrows a) (ncols b)
     (fun i j => \sum_(k < ncols a) ent2 a i k * ent2 b k j).

(** [torch.cat(ts)] of 1-D tensors: an empty list is refused. *)
Definition torch_cat (ts : seq (seq R)) : result (seq R) :=
  if ts is [::] then Raise (RuntimeError "torch.cat(): expected a non-empty list of Tensors")
  else Ok (flatten ts).

(** Entry [(i, j)] of the concatenation along [dim=1]. *)
Fixpoint cat1_ent (ts : seq tensor2) (i j : nat) : R :=
  match ts with
  | [::] => 0
  | t :: ts' => if (j < ncols t)%N then ent2 t i j else cat1_ent ts' i (j - ncols t)
  end.

(** [torch.cat(ts, dim=1)] of 2-D tensors with a common number of rows. *)
Definition torch_cat_dim1 (ts : seq tensor2) : result tensor2 :=
  match ts with
  | [::] => Raise (RuntimeError "torch.cat(): expected a non-empty list of Tensors")
  | t :: _ => Ok (T2 (nrows t) (sumn [seq ncols u | u <- ts]) (cat1_ent ts))
  end.

(** [t1 - t2] on 3-D tensors of one shape. *)
Definition sub3 (a b : tensor3) : tensor3 :=
  T3 (dim0 a) (dim1 a) (dim2 a) (fun m c k => ent3 a m c k - ent3 b m c k).

(** [torch.diag_embed(ps)] : [(M, C) -> (M, C, C)]. *)
Definition diag_embed (ps : tensor2) : tensor3 :=
  T3 (nrows ps) (ncols ps) (ncols ps)
     (fun m c k => if c == k then ent2 ps m c else 0).

(** [torch.einsum('mk,mc->mck', a, b)] *)
Definition einsum_mk_mc_mck (a b : tensor2) : tensor3 :=
  T3 (nrows a) (ncols b) (ncols a) (fun m c k => ent2 a m k * ent2 b m c).

(** [torch.einsum('mkp,mkq->pq', a, b)] *)
Definition einsum_mkp_mkq_pq (a b : tensor3) : tensor2 :=
  T2 (dim2 a) (dim2 b)
     (fun p q => \sum_(m < dim0 a) \sum_(k < dim1 a) ent3 a m k p * ent3 b m k q).

(** [torch.einsum('mcp,mck,mkq->pq', a, h, b)].  Each subscript has one size
    in all the operands that carry it (the operands here are built from the
    Jacobians and outputs of one call); it is read from the first of them. *)
Definition einsum_mcp_mck_mkq_pq (a h b : tensor3) : tensor2 :=
  T2 (dim2 a) (dim2 b)
     (fun p q => \sum_(m < dim0 a) \sum_(c < dim1 a) \sum_(k < dim2 h)
                   ent3 a m c p * ent3 h m c k * ent3 b m k q).

(** [torch.softmax(f, dim=-1)] of a 2-D tensor, for the exponential [exp]. *)
Definition softmax (exp : R -> R) (f : tensor2) : tensor2 :=
  T2 (nrows f) (ncols f)
     (fun m k => exp (ent2 f m k) / \sum_(j < ncols f) exp (ent2 f m j)).

(** ** Modules, autograd values and the external engine *)

(** A torch module: its forward map, its parameters in their fixed order,
    and its [last_layer] attribute when it has one. *)
Inductive Module :=
  mkModule { module_id : nat;
             forward : Input -> tensor2;
             parameters : seq Param;
             attr_last_layer : option Module }.

(** The output of a forward pass, with the graph it came from. *)
Record Output := mkOutput { out_data : tensor2; out_model : Module; out_input : Input }.

(** The scalar loss tensor, with the graph it came from. *)
Record Loss :=
  mkLoss { loss_data : R; loss_fn : LossFn; loss_output : Output; loss_target : Target }.

Definition batch_size (l : Loss) : nat := nrows (out_data (loss_output l)).

(** Modelled from the spec: the class [Kron] of [laplace.matrix], which is
    not among the sources, "accepts an ordered sequence of per-layer factor
    groups (each 1 or 2 factors)" and is "used only as an opaque data holder
    + rescaling target"; the code reads the groups back as [kron.kfacs]. *)
Record Kron := mkKron { kfacs : seq (seq tensor2) }.

(** Modelled from the spec: [jacobians] and [last_layer_jacobians] of
    [laplace.jacobians], which is not among the sources, return
    "per-example-per-output-dimension Jacobians and raw outputs": [Js] of
    shape [(M, K, P)] and [f] of shape [(M, K)] for one batch size [M] and
    one output dimension [K]. *)
Record JacResult :=
  mkJac { jac_M : nat; jac_K : nat; jac_P : nat;
          jac_Js : nat -> nat -> nat -> R;
          jac_f : nat -> nat -> R }.

Definition Js_of (j : JacResult) : tensor3 := T3 (jac_M j) (jac_K j) (jac_P j) (jac_Js j).
Definition f_of (j : JacResult) : tensor2 := T2 (jac_M j) (jac_K j) (jac_f j).

(** The collaborators: torch ([exp], [len], the loss modules), the Jacobian
    routines of [laplace.jacobians], the quantities BackPACK computes in a
    backward pass (entry functions; the shapes are those of the parameter),
    and the scalar multiplication of [laplace.matrix.Kron]. *)
Record Engine :=
  mkEngine { exp : R -> R;
             len : Target -> nat;
             lossfunc_apply : LossFn -> tensor2 -> Target -> R;
             jacobians : Module -> Input -> JacResult;
             last_layer_jacobians : Module -> Input -> JacResult;
             diag_ggn_exact_of : Loss -> Param -> nat -> R;
             diag_ggn_mc_of : Loss -> Param -> nat -> R;
             kflr_of : Loss -> Param -> seq tensor2;
             kfac_of : Loss -> Param -> seq tensor2;
             grad_batch_of : Loss -> Param -> nat -> nat -> R;
             Kron_rmul : R -> Kron -> Kron }.

Variable eng : Engine.

(** The value of an attribute BackPACK attaches to a parameter. *)
Inductive attr :=
  | Flat (v : seq R)
  | Factors (fs : seq tensor2)
  | PerExample (t : tensor2).

(** The quantity a backward pass of [l] under extension [ext] stores on the
    parameter [p].  [SumGradSquared] is the sum over the batch of the squared
    individual gradients that [BatchGrad] stores.  For the Monte-Carlo
    extensions [DiagGGNMC] and [KFAC] the field of the engine stands for the
    estimate of the sample drawn in that pass: the random state is not
    represented, so two stochastic passes are never compared below. *)
Definition backpack_quantity (ext : Extension) (l : Loss) (p : Param) : attr :=
  match ext with
  | DiagGGNExact => Flat (mkseq (diag_ggn_exact_of eng l p) (numel p))
  | DiagGGNMC => Flat (mkseq (diag_ggn_mc_of eng l p) (numel p))
  | KFAC => Factors (kfac_of eng l p)
  | KFLR => Factors (kflr_of eng l p)
  | SumGradSquared =>
      Flat (mkseq (fun i => \sum_(m < batch_size l) grad_batch_of eng l p m i ^+ 2)
                  (numel p))
  | BatchGrad => PerExample (T2 (batch_size l) (numel p) (grad_batch_of eng l p))
  end.

(** The name of the attribute an extension writes. *)
Definition attr_name (ext : Extension) : string :=
  match ext with
  | DiagGGNExact => "diag_ggn_exact" | DiagGGNMC => "diag_ggn_mc"
  | KFAC => "kfac" | KFLR => "kflr"
  | SumGradSquared => "sum_grad_squared" | BatchGrad => "grad_batch"
  end.

(** ** State and the monad of the program *)

Record World :=
  mkWorld { extended_modules : seq Module;
            extended_lossfuncs : seq LossFn;
            passes : seq Pass;
            attrs : Extension -> Param -> option attr }.

Definition M (A : Type) : Type := World -> World * result A.

Definition ret {A} (a : A) : M A := fun w => (w, Ok a).

Definition raise {A} (e : Exception) : M A := fun w => (w, Raise e).

Definition bind {A B} (c : M A) (k : A -> M B) : M B :=
  fun w => match c w with
           | (w', Ok a) => k a w'
           | (w', Raise e) => (w', Raise e)
           end.

Notation "x <- c ;; k" := (bind c (fun x => k))
  (at level 61, c at next level, right associativity).
Notation "c ;; k" := (bind c (fun _ => k))
  (at level 61, right associativity).

Definition lift_result {A} (r : result A) : M A := fun w => (w, r).

(** [assert b] *)
Definition assert (b : bool) : M unit :=
  if b then ret tt else raise AssertionError.

Fixpoint mapM {A B} (f : A -> M B) (s : seq A) : M (seq B) :=
  match s with
  | [::] => ret [::]
  | a :: s' => b <- f a ;; bs <- mapM f s' ;; ret (b :: bs)
  end.

(** [p] belongs to a module that was passed to [extend]. *)
Definition tracked (w : World) (p : Param) : bool :=
  has (fun m => p \in parameters m) (extended_modules w).

(** [extend(module)] and [extend(lossfunc)] *)
Definition extend_module (m : Module) : M unit :=
  fun w => (mkWorld (m :: extended_modules w) (extended_lossfuncs w)
                    (passes w) (attrs w), Ok tt).

Definition extend_lossfunc (l : LossFn) : M unit :=
  fun w => (mkWorld (extended_modules w) (l :: extended_lossfuncs w)
                    (passes w) (attrs w), Ok tt).

(** [module(X)] *)
Definition call_model (m : Module) (X : Input) : M Output :=
  fun w => (mkWorld (extended_modules w) (extended_lossfuncs w)
                    (rcons (passes w) (ForwardPass (module_id m))) (attrs w),
            Ok (mkOutput (forward m X) m X)).

(** [lossfunc(f, y)] on an output that carries its graph. *)
Definition lossfunc_call (fn : LossFn) (f : Output) (y : Target) : Loss :=
  mkLoss (lossfunc_apply eng fn (out_data f) y) fn f y.

(** [loss.detach()] *)
Definition detach (l : Loss) : R := loss_data l.

(** [with backpack(ext()): loss.backward()]: every parameter of an extended
    module receives the quantity of [ext]. *)
Definition backward_with (ext : Extension) (l : Loss) : M unit :=
  fun w => (mkWorld (extended_modules w) (extended_lossfuncs w)
                    (rcons (passes w) (BackwardPass ext))
                    (fun e p => if (e == ext) && tracked w p
                                then Some (backpack_quantity ext l p)
                                else attrs w e p),
            Ok tt).

(** Reading [p.<attr_name ext>] at each of the three kinds of value. *)
Definition getattr_flat (ext : Extension) (p : Param) : M (seq R) :=
  fun w => match attrs w ext p with
           | Some (Flat v) => (w, Ok v)
           | _ => (w, Raise (AttributeError (attr_name ext)))
           end.

Definition getattr_factors (ext : Extension) (p : Param) : M (seq tensor2) :=
  fun w => match attrs w ext p with
           | Some (Factors fs) => (w, Ok fs)
           | _ => (w, Raise (AttributeError (attr_name ext)))
           end.

Definition getattr_per_example (ext : Extension) (p : Param) : M tensor2 :=
  fun w => match attrs w ext p with
           | Some (PerExample t) => (w, Ok t)
           | _ => (w, Raise (AttributeError (attr_name ext)))
           end.

(** [jacobians(model, X)] and [last_layer_jacobians(model, X)].
    Modelled from the spec: the "Jacobian-computation collaborator: given a
    model and inputs, returns per-example-per-output-dimension Jacobians and
    raw outputs; must support a last-layer-only mode".  The call is logged as
    one pass; what the routine does to the registry and to the quantities on
    the parameters is not in the sources and is left as it was here: the
    theorems on [full] of the GGN family are about the value it returns. *)
Definition call_jacobians (m : Module) (X : Input) : M (tensor3 * tensor2) :=
  fun w => (mkWorld (extended_modules w) (extended_lossfuncs w)
                    (rcons (passes w) (JacobianPass (module_id m) false)) (attrs w),
            Ok (Js_of (jacobians eng m X), f_of (jacobians eng m X))).

Definition call_last_layer_jacobians (m : Module) (X : Input)
  : M (tensor3 * tensor2) :=
  fun w => (mkWorld (extended_modules w) (extended_lossfuncs w)
                    (rcons (passes w) (JacobianPass (module_id m) true)) (attrs w),
            Ok (Js_of (last_layer_jacobians eng m X),
                f_of (last_layer_jacobians eng m X))).

(** [M / N] on Python integers. *)
Definition true_div (m n : nat) : M R :=
  if n == 0%N then raise ZeroDivisionError else ret (m%:R / n%:R).

(** ** class CurvatureInterface *)

Record CurvatureInterface :=
  mkCurvatureInterface { likelihood : string;
                         model : Module;
                         lossfunc : LossFn;
                         factor : R }.

(** [x in l] on strings. *)
Definition string_in (x : string) (l : seq string) : bool := has (String.eqb x) l.

(** [CurvatureInterface.__init__(self, model, likelihood)].  The [assert]
    statement is executed (the interpreter does not run with [-O]). *)
Definition CurvatureInterface_init (model : Module) (likelihood : string)
  : M CurvatureInterface :=
  assert (string_in likelihood [:: "regression"%string; "classification"%string]) ;;
  if String.eqb likelihood "regression"
  then ret (mkCurvatureInterface likelihood model (MSELoss ReduceSum) (2%:R^-1))
  else ret (mkCurvatureInterface likelihood model (CrossEntropyLoss ReduceSum) 1).

(** [CurvatureInterface._get_full_ggn(self, Js, f, y)] *)
Definition _get_full_ggn (self : CurvatureInterface) (Js : tensor3) (f : tensor2)
    (y : Target) : M (R * tensor2) :=
  let loss := factor self * lossfunc_apply eng (lossfunc self) f y in
  let H_ggn :=
    if String.eqb (likelihood self) "regression"
    then einsum_mkp_mkq_pq Js Js
    else
      let ps := softmax (exp eng) f in
      let H_lik := sub3 (diag_embed ps) (einsum_mk_mc_mck ps ps) in
      einsum_mcp_mck_mkq_pq Js H_lik Js in
  ret (loss, H_ggn).

(** ** class BackPackInterface(CurvatureInterface) *)

Record BackPackInterface :=
  mkBackPackInterface { interface_super :> CurvatureInterface; last_layer : bool }.

(** The property [BackPackInterface._model] *)
Definition _model (self : BackPackInterface) : M Module :=
  if last_layer self
  then if attr_last_layer (model self) is Some m then ret m
       else raise (AttributeError "last_layer")
  else ret (model self).

(** [BackPackInterface.__init__(self, model, likelihood, last_layer=False)] *)
Definition BackPackInterface_init (model : Module) (likelihood : string)
    (last_layer : bool) : M BackPackInterface :=
  super <- CurvatureInterface_init model likelihood ;;
  let self := mkBackPackInterface super last_layer in
  m <- _model self ;;
  extend_module m ;;
  extend_lossfunc (lossfunc self) ;;
  ret self.

(** ** class BackPackGGN(BackPackInterface) *)

Record BackPackGGN :=
  mkBackPackGGN { ggn_super :> BackPackInterface; stochastic : bool }.

(** [BackPackGGN.__init__(self, model, likelihood, last_layer=False, stochastic=False)] *)
Definition BackPackGGN_init (model : Module) (likelihood : string)
    (last_layer stochastic : bool) : M BackPackGGN :=
  super <- BackPackInterface_init model likelihood last_layer ;;
  ret (mkBackPackGGN super stochastic).

(** [BackPackGGN._get_diag_ggn(self)] *)
Definition _get_diag_ggn (self : BackPackGGN) : M (seq R) :=
  if stochastic self
  then m <- _model self ;;
       ts <- mapM (getattr_flat DiagGGNMC) (parameters m) ;;
       lift_result (torch_cat ts)
  else m <- _model self ;;
       ts <- mapM (getattr_flat DiagGGNExact) (parameters m) ;;
       lift_result (torch_cat ts).

(** [BackPackGGN._get_kron_factors(self)] *)
Definition _get_kron_factors (self : BackPackGGN) : M Kron :=
  if stochastic self
  then m <- _model self ;;
       fs <- mapM (getattr_factors KFAC) (parameters m) ;;
       ret (mkKron fs)
  else m <- _model self ;;
       fs <- mapM (getattr_factors KFLR) (parameters m) ;;
       ret (mkKron fs).

Definition tensor2_0 : tensor2 := T2 0 0 (fun _ _ => 0).

(** The loop of [_rescale_kron_factors] over [kron.kfacs]. *)
Fixpoint rescale_groups (groups : seq (seq tensor2)) (m n : nat)
  : M (seq (seq tensor2)) :=
  match groups with
  | [::] => ret [::]
  | F :: rest =>
      F' <- (if size F == 2
             then a <- true_div m n ;;
                  ret (set_nth tensor2_0 F 1 (imul (nth tensor2_0 F 1) a))
             else ret F) ;;
      rest' <- rescale_groups rest m n ;;
      ret (F' :: rest')
  end.

(** [BackPackGGN._rescale_kron_factors(kron, M, N)].  The rescaled collection
    is returned as a value; that [F[1] *= M/N] also updates the tensor held
    by the parameter is not tracked, every operation starting with a
    backward pass that stores fresh factors: the properties of [kron] concern
    the returned value, the passes and the registry, not the quantities left
    on the parameters. *)
Definition _rescale_kron_factors (kron : Kron) (m n : nat) : M Kron :=
  groups <- rescale_groups (kfacs kron) m n ;;
  ret (mkKron groups).

(** [BackPackGGN.diag(self, X, y)] *)
Definition BackPackGGN_diag (self : BackPackGGN) (X : Input) (y : Target)
  : M (R * seq R) :=
  let context := if stochastic self then DiagGGNMC else DiagGGNExact in
  f <- call_model (model self) X ;;
  let loss := lossfunc_call (lossfunc self) f y in
  backward_with context loss ;;
  dggn <- _get_diag_ggn self ;;
  ret (factor self * detach loss, scale1 (factor self) dggn).

(** [BackPackGGN.kron(self, X, y, N)] *)
Definition BackPackGGN_kron (self : BackPackGGN) (X : Input) (y : Target) (N : nat)
  : M (R * Kron) :=
  let context := if stochastic self then KFAC else KFLR in
  f <- call_model (model self) X ;;
  let loss := lossfunc_call (lossfunc self) f y in
  backward_with context loss ;;
  kron <- _get_kron_factors self ;;
  kron <- _rescale_kron_factors kron (len eng y) N ;;
  ret (factor self * detach loss, Kron_rmul eng (factor self) kron).

(** [BackPackGGN.full(self, X, y)] *)
Definition BackPackGGN_full (self : BackPackGGN) (X : Input) (y : Target)
  : M (R * tensor2) :=
  if stochastic self
  then raise (ValueError "Stochastic approximation not implemented for full GGN.")
  else
    Jsf <- (if last_layer self then call_last_layer_jacobians (model self) X
            else call_jacobians (model self) X) ;;
    _get_full_ggn self Jsf.1 Jsf.2 y.

(** ** class BackPackEF(BackPackInterface) *)

Record BackPackEF := mkBackPackEF { ef_super :> BackPackInterface }.

(** [BackPackEF] inherits [BackPackInterface.__init__]. *)
Definition BackPackEF_init (model : Module) (likelihood : string)
    (last_layer : bool) : M BackPackEF :=
  super <- BackPackInterface_init model likelihood last_layer ;;
  ret (mkBackPackEF super).

(** [BackPackEF._get_individual_gradients(self)] *)
Definition _get_individual_gradients (self : BackPackEF) : M tensor2 :=
  m <- _model self ;;
  ts <- mapM (getattr_per_example BatchGrad) (parameters m) ;;
  lift_result (torch_cat_dim1 ts).

(** [BackPackEF.diag(self, X, y)] *)
Definition BackPackEF_diag (self : BackPackEF) (X : Input) (y : Target)
  : M (R * seq R) :=
  f <- call_model (model self) X ;;
  let loss := lossfunc_call (lossfunc self) f y in
  backward_with SumGradSquared loss ;;
  m <- _model self ;;
  ts <- mapM (getattr_flat SumGradSquared) (parameters m) ;;
  diag_EF <- lift_result (torch_cat ts) ;;
  ret (factor self * detach loss, scale1 (factor self) diag_EF).

(** [BackPackEF.kron(self, X, y, **kwargs)]; [N], when given, is a keyword
    argument. *)
Definition BackPackEF_kron (self : BackPackEF) (X : Input) (y : Target) (N : nat)
  : M (R * Kron) :=
  raise NotImplementedError.

(** [BackPackEF.full(self, X, y)] *)
Definition BackPackEF_full (self : BackPackEF) (X : Input) (y : Target)
  : M (R * tensor2) :=
  f <- call_model (model self) X ;;
  let loss := lossfunc_call (lossfunc self) f y in
  backward_with BatchGrad loss ;;
  Gs <- _get_individual_gradients self ;;
  let H_ef := matmul (transpose Gs) Gs in
  ret (factor self * detach loss, scale2 (factor self) H_ef).

(** The abstract methods of [CurvatureInterface], implemented by the two
    families. *)
Class Curvature (T : Type) :=
  { full : T -> Input -> Target -> M (R * tensor2);
    kron : T -> Input -> Target -> nat -> M (R * Kron);
    diag : T -> Input -> Target -> M (R * seq R) }.

#[global] Instance BackPackGGN_Curvature : Curvature BackPackGGN :=
  {| full := BackPackGGN_full; kron := BackPackGGN_kron; diag := BackPackGGN_diag |}.

#[global] Instance BackPackEF_Curvature : Curvature BackPackEF :=
  {| full := BackPackEF_full; kron := BackPackEF_kron; diag := BackPackEF_diag |}.

(** ** Construction *)

(** The module [self._model] denotes for a model and a [last_layer] flag. *)
Definition curvature_module (model : Module) (last_layer : bool) : option Module :=
  if last_layer then attr_last_layer model else Some model.

(** The world after [extend(m)] and [extend(l)]. *)
Definition registered (m : Module) (l : LossFn) (w : World) : World :=
  mkWorld (m :: extended_modules w) (l :: extended_lossfuncs w) (passes w) (attrs w).

Definition valid_likelihoods : seq string :=
  [:: "regression"%string; "classification"%string].

(** ** The quantities the operations are stated with *)

(** [self._model] is [m], and every parameter of [m] belongs to an extended
    module of the world [w]. *)
Definition ready (w : World) (self : BackPackInterface) (m : Module) : Prop :=
  curvature_module (model self) (last_layer self) = Some m /\
  all (tracked w) (parameters m).

(** The loss tensor [self.lossfunc(self.model(X), y)]. *)
Definition forward_loss (self : CurvatureInterface) (X : Input) (y : Target) : Loss :=
  lossfunc_call (lossfunc self) (mkOutput (forward (model self) X) (model self) X) y.

(** The unscaled diagonal GGN of the parameters of [m], concatenated. *)
Definition diag_ggn (stochastic : bool) (l : Loss) (m : Module) : seq R :=
  flatten [seq mkseq ((if stochastic then diag_ggn_mc_of else diag_ggn_exact_of)
                        eng l p) (numel p)
          | p <- parameters m].

(** The Kronecker factor groups of the parameters of [m], before rescaling. *)
Definition kron_factors (stochastic : bool) (l : Loss) (m : Module)
  : seq (seq tensor2) :=
  [seq (if stochastic then kfac_of else kflr_of) eng l p | p <- parameters m].

(** The concatenated sums of squared individual gradients. *)
Definition sum_grad_squared (l : Loss) (m : Module) : seq R :=
  flatten [seq mkseq (fun i => \sum_(k < batch_size l) grad_batch_of eng l p k i ^+ 2)
                     (numel p)
          | p <- parameters m].

(** The individual gradients of the parameters of [m], one row per example. *)
Definition grad_batches (l : Loss) (m : Module) : seq tensor2 :=
  [seq T2 (batch_size l) (numel p) (grad_batch_of eng l p) | p <- parameters m].

Definition individual_gradients (l : Loss) (m : Module) : tensor2 :=
  T2 (batch_size l) (sumn [seq ncols t | t <- grad_batches l m])
     (cat1_ent (grad_batches l m)).

(** What the Jacobian routine selected by [self.last_layer] returns. *)
Definition jacobian_result (self : BackPackInterface) (X : Input) : JacResult :=
  if last_layer self then last_layer_jacobians eng (model self) X
  else jacobians eng (model self) X.

(** The Jacobian of one example: the [(K, P)] slice [Js[m]]. *)
Definition example_jacobian (Js : tensor3) (m : nat) : tensor2 :=
  T2 (dim1 Js) (dim2 Js) (fun k p => ent3 Js m k p).

(** A square matrix equal to its transpose. *)
Definition symmetric (H : tensor2) : Prop :=
  nrows H = ncols H /\ forall i j, ent2 H i j = ent2 H j i.

(** [x^T H x >= 0] for every vector [x]. *)
Definition positive_semidefinite (H : tensor2) : Prop :=
  forall x : nat -> R,
    0 <= \sum_(i < nrows H) \sum_(j < ncols H) x i * ent2 H i j * x j.

(** The factor and the loss function a likelihood determines. *)
Definition likelihood_factor (lik : string) : R :=
  if String.eqb lik "regression" then 2%:R^-1 else 1.

Definition likelihood_lossfunc (lik : string) : LossFn :=
  if String.eqb lik "regression" then MSELoss ReduceSum
  else CrossEntropyLoss ReduceSum.

(** The unscaled full GGN that [_get_full_ggn] assembles from [Js] and [f]. *)
Definition full_ggn (lik : string) (j : JacResult) : tensor2 :=
  if String.eqb lik "regression"
  then einsum_mkp_mkq_pq (Js_of j) (Js_of j)
  else
    let ps := softmax (exp eng) (f_of j) in
    einsum_mcp_mck_mkq_pq (Js_of j)
      (sub3 (diag_embed ps) (einsum_mk_mc_mck ps ps)) (Js_of j).

(** Two 2-D tensors with one shape and the same entries. *)
Definition same_tensor2 (a b : tensor2) : Prop :=
  [/\ nrows a = nrows b, ncols a = ncols b & forall i j, ent2 a i j = ent2 b i j].

(** A computation that leaves the registry of extended modules as it is. *)
Definition keeps_modules {A} (c : M A) : Prop :=
  forall w, extended_modules (c w).1 = extended_modules w.

(** A factor group after the rescaling by [a]. *)
Definition rescaled_group (a : R) (F : seq tensor2) : seq tensor2 :=
  if size F == 2 then set_nth tensor2_0 F 1 (imul (nth tensor2_0 F 1) a) else F.

(** A computation that reads the world and leaves all of it as it is. *)
Definition reads_only {A} (c : M A) : Prop := forall w, (c w).1 = w.

(** [torch.cat([a, b], dim=0)]: the examples of [b] after those of [a]; the
    trailing dimensions are those of [a]. *)
Definition cat0_tensor3 (a b : tensor3) : tensor3 :=
  T3 (dim0 a + dim0 b) (dim1 a) (dim2 a)
     (fun m k p => if (m < dim0 a)%N then ent3 a m k p else ent3 b (m - dim0 a) k p).

Definition cat0_tensor2 (a b : tensor2) : tensor2 :=
  T2 (nrows a + nrows b) (ncols a)
     (fun m k => if (m < nrows a)%N then ent2 a m k else ent2 b (m - nrows a) k).

(** The identity as output Hessian of every example: [diag_embed] of ones. *)
Definition identity_hessian (Js : tensor3) : tensor3 :=
  diag_embed (T2 (dim0 Js) (dim1 Js) (fun _ _ => 1)).

(** The world after [self.model(X)] and a backward pass of the loss under
    the extension [ext]. *)
Definition after_forward_backward (self : CurvatureInterface) (ext : Extension)
    (X : Input) (y : Target) (w : World) : World :=
  (backward_with ext (forward_loss self X y) (call_model (model self) X w).1).1.

(** * Properties *)

(** ** The constructors *)

Lemma CurvatureInterface_init_invalid model lik w :
  string_in lik valid_likelihoods = false ->
  CurvatureInterface_init model lik w = (w, Raise AssertionError).
Proof. by rewrite /CurvatureInterface_init /bind /assert /valid_likelihoods => ->. Qed.

Lemma CurvatureInterface_init_regression model w :
  CurvatureInterface_init model "regression" w =
  (w, Ok (mkCurvatureInterface "regression" model (MSELoss ReduceSum) (2%:R^-1))).
Proof. by []. Qed.

Lemma CurvatureInterface_init_classification model w :
  CurvatureInterface_init model "classification" w =
  (w, Ok (mkCurvatureInterface "classification" model (CrossEntropyLoss ReduceSum) 1)).
Proof. by []. Qed.

Lemma _modelE (self : BackPackInterface) w :
  _model self w =
  (w, if curvature_module (model self) (last_layer self) is Some m then Ok m
      else Raise (AttributeError "last_layer")).
Proof.
rewrite /_model /curvature_module; case: (last_layer self) => //.
by case: (attr_last_layer _).
Qed.

Lemma BackPackInterface_init_invalid model lik ll w :
  string_in lik valid_likelihoods = false ->
  BackPackInterface_init model lik ll w = (w, Raise AssertionError).
Proof.
by move=> bad; rewrite /BackPackInterface_init /bind CurvatureInterface_init_invalid.
Qed.

Lemma BackPackInterface_init_valid mdl lik ll w super :
  CurvatureInterface_init mdl lik w = (w, Ok super) ->
  model super = mdl ->
  BackPackInterface_init mdl lik ll w =
  if curvature_module mdl ll is Some m
  then (registered m (lossfunc super) w, Ok (mkBackPackInterface super ll))
  else (w, Raise (AttributeError "last_layer")).
Proof.
move=> init_super model_super.
rewrite /BackPackInterface_init /bind init_super _modelE /= model_super.
by case: (curvature_module mdl ll).
Qed.

Lemma BackPackGGN_initE mdl lik ll st w :
  BackPackGGN_init mdl lik ll st w =
  match BackPackInterface_init mdl lik ll w with
  | (w', Ok super) => (w', Ok (mkBackPackGGN super st))
  | (w', Raise e) => (w', Raise e)
  end.
Proof. by []. Qed.

Lemma BackPackEF_initE mdl lik ll w :
  BackPackEF_init mdl lik ll w =
  match BackPackInterface_init mdl lik ll w with
  | (w', Ok super) => (w', Ok (mkBackPackEF super))
  | (w', Raise e) => (w', Raise e)
  end.
Proof. by []. Qed.

(** C7. Constructing either family with a likelihood outside
    [regression], [classification] raises at construction, in an unchanged
    world (no batch has been processed).  With [regression] the constructor
    sets the sum-reduced squared error and the factor [0.5], with
    [classification] the sum-reduced cross-entropy and the factor [1.0];
    neither runs a pass through the engine. *)
Theorem likelihood_fixed_at_construction mdl lik ll st w :
  (string_in lik valid_likelihoods = false ->
     BackPackGGN_init mdl lik ll st w = (w, Raise AssertionError) /\
     BackPackEF_init mdl lik ll w = (w, Raise AssertionError)) /\
  (forall m, curvature_module mdl ll = Some m ->
     let reg := mkCurvatureInterface "regression" mdl (MSELoss ReduceSum) (2%:R^-1) in
     let cls := mkCurvatureInterface "classification" mdl (CrossEntropyLoss ReduceSum) 1 in
     [/\ BackPackGGN_init mdl "regression" ll st w =
           (registered m (MSELoss ReduceSum) w,
            Ok (mkBackPackGGN (mkBackPackInterface reg ll) st)),
         BackPackEF_init mdl "regression" ll w =
           (registered m (MSELoss ReduceSum) w,
            Ok (mkBackPackEF (mkBackPackInterface reg ll))),
         BackPackGGN_init mdl "classification" ll st w =
           (registered m (CrossEntropyLoss ReduceSum) w,
            Ok (mkBackPackGGN (mkBackPackInterface cls ll) st)),
         BackPackEF_init mdl "classification" ll w =
           (registered m (CrossEntropyLoss ReduceSum) w,
            Ok (mkBackPackEF (mkBackPackInterface cls ll))) &
         passes (registered m (MSELoss ReduceSum) w) = passes w /\
         passes (registered m (CrossEntropyLoss ReduceSum) w) = passes w]).
Proof.
split=> [bad|m mE].
  by rewrite BackPackGGN_initE BackPackEF_initE BackPackInterface_init_invalid.
rewrite !BackPackGGN_initE !BackPackEF_initE.
rewrite (BackPackInterface_init_valid _ (CurvatureInterface_init_regression mdl w)) //.
rewrite (BackPackInterface_init_valid _ (CurvatureInterface_init_classification mdl w)) //.
by rewrite mE.
Qed.

(** C10. With an invalid likelihood the base constructor raises at its first
    statement, so the constructors of both families raise before
    [extend(self._model)] and [extend(self.lossfunc)]: the registry of the
    engine is the one before the call.  (A construction that succeeds does
    register: see [registered] in [likelihood_fixed_at_construction].) *)
Theorem failed_construction_registers_nothing mdl lik ll st w :
  string_in lik valid_likelihoods = false ->
  [/\ CurvatureInterface_init mdl lik w = (w, Raise AssertionError),
      (BackPackGGN_init mdl lik ll st w).2 = Raise AssertionError,
      (BackPackEF_init mdl lik ll w).2 = Raise AssertionError,
      extended_modules (BackPackGGN_init mdl lik ll st w).1 = extended_modules w /\
      extended_lossfuncs (BackPackGGN_init mdl lik ll st w).1 = extended_lossfuncs w &
      extended_modules (BackPackEF_init mdl lik ll w).1 = extended_modules w /\
      extended_lossfuncs (BackPackEF_init mdl lik ll w).1 = extended_lossfuncs w].
Proof.
move=> bad.
rewrite BackPackGGN_initE BackPackEF_initE BackPackInterface_init_invalid //.
by rewrite CurvatureInterface_init_invalid.
Qed.

(** C5. [full] on a stochastic GGN interface and [kron] on an Empirical-Fisher
    interface raise for every input, in the world they were called in: no
    pass has run and nothing was stored, and a second call raises the same
    exception. *)
Theorem unsupported_operations_raise_first
    (super : BackPackInterface) (X : Input) (y : Target) (N : nat) (w : World) :
  let ggn := mkBackPackGGN super true in
  let ef := mkBackPackEF super in
  [/\ full ggn X y w =
        (w, Raise (ValueError "Stochastic approximation not implemented for full GGN.")),
      kron ef X y N w = (w, Raise NotImplementedError),
      full ggn X y (full ggn X y w).1 = full ggn X y w &
      kron ef X y N (kron ef X y N w).1 = kron ef X y N w].
Proof. by []. Qed.

(** ** Evaluation of the operations *)


Lemma mapM_getattr_flat ext (v : Param -> seq R) ps w :
  {in ps, forall p, attrs w ext p = Some (Flat (v p))} ->
  mapM (getattr_flat ext) ps w = (w, Ok [seq v p | p <- ps]).
Proof.
elim: ps => [//|p ps IH] stored /=.
rewrite /bind {1}/getattr_flat stored ?mem_head // IH // => q q_ps.
by apply: stored; rewrite inE q_ps orbT.
Qed.

Lemma mapM_getattr_factors ext (v : Param -> seq tensor2) ps w :
  {in ps, forall p, attrs w ext p = Some (Factors (v p))} ->
  mapM (getattr_factors ext) ps w = (w, Ok [seq v p | p <- ps]).
Proof.
elim: ps => [//|p ps IH] stored /=.
rewrite /bind {1}/getattr_factors stored ?mem_head // IH // => q q_ps.
by apply: stored; rewrite inE q_ps orbT.
Qed.

Lemma mapM_getattr_per_example ext (v : Param -> tensor2) ps w :
  {in ps, forall p, attrs w ext p = Some (PerExample (v p))} ->
  mapM (getattr_per_example ext) ps w = (w, Ok [seq v p | p <- ps]).
Proof.
elim: ps => [//|p ps IH] stored /=.
rewrite /bind {1}/getattr_per_example stored ?mem_head // IH // => q q_ps.
by apply: stored; rewrite inE q_ps orbT.
Qed.

Lemma stored_after_backward ext l w0 w p :
  extended_modules w0 = extended_modules w -> tracked w p ->
  attrs (backward_with ext l w0).1 ext p = Some (backpack_quantity ext l p).
Proof. by rewrite /backward_with /tracked /= eqxx => -> ->. Qed.

Lemma BackPackGGN_diagE (self : BackPackGGN) X y w m :
  ready w self m -> parameters m != [::] ->
  (diag self X y w).2 =
  Ok (factor self * loss_data (forward_loss self X y),
      scale1 (factor self) (diag_ggn (stochastic self) (forward_loss self X y) m)).
Proof.
case=> mE tr ne.
rewrite /diag /= /BackPackGGN_diag /_get_diag_ggn /diag_ggn.
case: (stochastic self); rewrite /bind /= /bind _modelE mE.
- rewrite (@mapM_getattr_flat _
    (fun p => mkseq (diag_ggn_mc_of eng (forward_loss self X y) p) (numel p))).
  + by move=> p p_m; rewrite (@stored_after_backward _ _ _ w) ?(allP tr).
  + by rewrite /lift_result /ret /torch_cat; case: (parameters m) ne.
- rewrite (@mapM_getattr_flat _
    (fun p => mkseq (diag_ggn_exact_of eng (forward_loss self X y) p) (numel p))).
  + by move=> p p_m; rewrite (@stored_after_backward _ _ _ w) ?(allP tr).
  + by rewrite /lift_result /ret /torch_cat; case: (parameters m) ne.
Qed.

Lemma rescale_groupsE groups m n w :
  n != 0%N ->
  rescale_groups groups m n w =
  (w, Ok [seq rescaled_group (m%:R / n%:R) F | F <- groups]).
Proof.
move=> n_pos; elim: groups => [//|F groups IH] /=.
rewrite /bind /rescaled_group /true_div (negPf n_pos).
by case: (size F == 2); rewrite /ret IH.
Qed.

Lemma rescale_groups_div0 groups m w :
  rescale_groups groups m 0 w =
  (w, if has (fun F => size F == 2) groups then Raise ZeroDivisionError
      else Ok groups).
Proof.
elim: groups => [//|F groups IH] /=.
by rewrite /bind /true_div /=; case: (size F == 2); rewrite /ret /raise // IH; case: has.
Qed.

Lemma BackPackGGN_kronE (self : BackPackGGN) X y N w m :
  ready w self m -> N != 0%N ->
  (kron self X y N w).2 =
  Ok (factor self * loss_data (forward_loss self X y),
      Kron_rmul eng (factor self)
        (mkKron [seq rescaled_group ((len eng y)%:R / N%:R) F
                | F <- kron_factors (stochastic self) (forward_loss self X y) m])).
Proof.
case=> mE tr N_pos.
rewrite /kron /= /BackPackGGN_kron /_get_kron_factors /kron_factors.
case: (stochastic self); rewrite /bind /= /bind _modelE mE.
- rewrite (@mapM_getattr_factors _ (fun p => kfac_of eng (forward_loss self X y) p)).
  + by move=> p p_m; rewrite (@stored_after_backward _ _ _ w) ?(allP tr).
  + by rewrite /ret /_rescale_kron_factors /bind rescale_groupsE.
- rewrite (@mapM_getattr_factors _ (fun p => kflr_of eng (forward_loss self X y) p)).
  + by move=> p p_m; rewrite (@stored_after_backward _ _ _ w) ?(allP tr).
  + by rewrite /ret /_rescale_kron_factors /bind rescale_groupsE.
Qed.

Lemma BackPackGGN_fullE (self : BackPackGGN) X y w :
  stochastic self = false ->
  let j := jacobian_result self X in
  (full self X y w).2 =
  Ok (factor self * lossfunc_apply eng (lossfunc self) (f_of j) y,
      if String.eqb (likelihood self) "regression"
      then einsum_mkp_mkq_pq (Js_of j) (Js_of j)
      else
        let ps := softmax (exp eng) (f_of j) in
        einsum_mcp_mck_mkq_pq (Js_of j)
          (sub3 (diag_embed ps) (einsum_mk_mc_mck ps ps)) (Js_of j)).
Proof.
move=> exact; rewrite /full /= /BackPackGGN_full exact /jacobian_result /bind.
by case: (last_layer self).
Qed.

Lemma BackPackEF_diagE (self : BackPackEF) X y w m :
  ready w self m -> parameters m != [::] ->
  (diag self X y w).2 =
  Ok (factor self * loss_data (forward_loss self X y),
      scale1 (factor self) (sum_grad_squared (forward_loss self X y) m)).
Proof.
case=> mE tr ne.
rewrite /diag /= /BackPackEF_diag /bind /= _modelE mE.
rewrite (@mapM_getattr_flat _
  (fun p => mkseq (fun i => \sum_(k < batch_size (forward_loss self X y))
                              grad_batch_of eng (forward_loss self X y) p k i ^+ 2)
                  (numel p))).
- by move=> p p_m; rewrite (@stored_after_backward _ _ _ w) ?(allP tr).
- by rewrite /lift_result /ret /torch_cat /sum_grad_squared; case: (parameters m) ne.
Qed.

Lemma BackPackEF_fullE (self : BackPackEF) X y w m :
  ready w self m -> parameters m != [::] ->
  let Gs := individual_gradients (forward_loss self X y) m in
  (full self X y w).2 =
  Ok (factor self * loss_data (forward_loss self X y),
      scale2 (factor self) (matmul (transpose Gs) Gs)).
Proof.
case=> mE tr ne.
rewrite /full /= /BackPackEF_full /bind /= /_get_individual_gradients /bind _modelE mE.
rewrite (@mapM_getattr_per_example _
  (fun p => T2 (batch_size (forward_loss self X y)) (numel p)
               (grad_batch_of eng (forward_loss self X y) p))).
- by move=> p p_m; rewrite (@stored_after_backward _ _ _ w) ?(allP tr).
- rewrite /lift_result /ret /torch_cat_dim1 /individual_gradients /grad_batches.
  by case: (parameters m) ne.
Qed.

(** ** What a successful construction establishes *)

Lemma BackPackInterface_init_inv mdl lik ll w0 w1 self :
  BackPackInterface_init mdl lik ll w0 = (w1, Ok self) ->
  [/\ string_in lik valid_likelihoods,
      self = mkBackPackInterface
               (mkCurvatureInterface lik mdl (likelihood_lossfunc lik)
                                     (likelihood_factor lik)) ll
    & exists2 m, curvature_module mdl ll = Some m
               & w1 = registered m (likelihood_lossfunc lik) w0].
Proof.
rewrite /BackPackInterface_init /CurvatureInterface_init /bind /assert.
rewrite -/valid_likelihoods /likelihood_lossfunc /likelihood_factor.
case: (string_in lik valid_likelihoods) => //=.
by case: (String.eqb lik "regression"); rewrite /ret _modelE /=;
   case: (curvature_module mdl ll) => [m|] //= [<- <-]; split=> //; exists m.
Qed.

Lemma BackPackInterface_init_fields mdl lik ll w0 w1 self :
  BackPackInterface_init mdl lik ll w0 = (w1, Ok self) ->
  [/\ likelihood self = lik, model self = mdl,
      lossfunc self = likelihood_lossfunc lik,
      factor self = likelihood_factor lik & last_layer self = ll].
Proof. by case/BackPackInterface_init_inv => _ ->. Qed.

Lemma BackPackGGN_init_inv mdl lik ll st w0 w1 (self : BackPackGGN) :
  BackPackGGN_init mdl lik ll st w0 = (w1, Ok self) ->
  BackPackInterface_init mdl lik ll w0 = (w1, Ok (ggn_super self)) /\
  stochastic self = st.
Proof.
rewrite BackPackGGN_initE.
by case: (BackPackInterface_init mdl lik ll w0) => w [super|e] //= [-> <-].
Qed.

Lemma BackPackEF_init_inv mdl lik ll w0 w1 (self : BackPackEF) :
  BackPackEF_init mdl lik ll w0 = (w1, Ok self) ->
  BackPackInterface_init mdl lik ll w0 = (w1, Ok (ef_super self)).
Proof.
rewrite BackPackEF_initE.
by case: (BackPackInterface_init mdl lik ll w0) => w [super|e] //= [-> <-].
Qed.

Lemma init_ready mdl lik ll w0 w1 self :
  BackPackInterface_init mdl lik ll w0 = (w1, Ok self) ->
  exists m, ready w1 self m.
Proof.
case/BackPackInterface_init_inv => _ -> [m mE ->]; exists m; split=> //=.
by apply/allP => p p_m; rewrite /tracked /= p_m.
Qed.

Lemma likelihood_factor_ge0 lik : 0 <= likelihood_factor lik.
Proof.
by rewrite /likelihood_factor; case: String.eqb; rewrite ?invr_ge0 ?ler0n ?ler01.
Qed.

(** ** Sums and concatenations *)

Lemma gram_quadratic_form (n P : nat) (g : nat -> nat -> R) (x : nat -> R) :
  \sum_(i < P) \sum_(j < P) x i * (\sum_(k < n) g k i * g k j) * x j =
  \sum_(k < n) (\sum_(i < P) x i * g k i) ^+ 2.
Proof.
under eq_bigr => i _.
  under eq_bigr => j _ do rewrite mulr_sumr mulr_suml.
  rewrite exchange_big /=; over.
rewrite exchange_big /=; apply: eq_bigr => k _.
rewrite expr2 mulr_suml; apply: eq_bigr => i _.
rewrite mulr_sumr; apply: eq_bigr => j _.
by rewrite !mulrA -[_ * g k j * x j]mulrA [g k j * x j]mulrC mulrA.
Qed.

Lemma gram_quadratic_form_ge0 (n P : nat) (g : nat -> nat -> R) (x : nat -> R) :
  0 <= \sum_(i < P) \sum_(j < P) x i * (\sum_(k < n) g k i * g k j) * x j.
Proof. by rewrite gram_quadratic_form sumr_ge0 // => k _; rewrite sqr_ge0. Qed.

Lemma size_flatten_mkseq (F : Param -> nat -> R) ps :
  size (flatten [seq mkseq (F p) (numel p) | p <- ps]) =
  sumn [seq numel p | p <- ps].
Proof.
rewrite size_flatten /shape -map_comp; congr sumn.
by apply: eq_map => p /=; rewrite size_mkseq.
Qed.

Lemma sumn_ncols_grad_batches l m :
  sumn [seq ncols t | t <- grad_batches l m] = sumn [seq numel p | p <- parameters m].
Proof. by rewrite /grad_batches -map_comp. Qed.

Lemma nth_flatten_sum_squares (n : nat) (g : Param -> nat -> nat -> R) ps j :
  (j < sumn [seq numel p | p <- ps])%N ->
  nth 0 (flatten [seq mkseq (fun i => \sum_(k < n) g p k i ^+ 2) (numel p) | p <- ps]) j =
  \sum_(k < n) cat1_ent [seq T2 n (numel p) (g p) | p <- ps] k j ^+ 2.
Proof.
elim: ps j => [//|p ps IH] j /= j_lt.
rewrite nth_cat size_mkseq; case: (ltnP j (numel p)) => j_p /=.
  by rewrite nth_mkseq.
by rewrite IH // ltn_subLR.
Qed.

Lemma gram_symmetric_psd (a : R) (G : tensor2) :
  0 <= a ->
  symmetric (scale2 a (matmul (transpose G) G)) /\
  positive_semidefinite (scale2 a (matmul (transpose G) G)).
Proof.
move=> a_ge0; split; first split=> //= i j.
  by congr (_ * _); apply: eq_bigr => k _; rewrite mulrC.
move=> x /=.
have -> : \sum_(i < ncols G) \sum_(j < ncols G)
            x i * (a * \sum_(k < nrows G) ent2 G k i * ent2 G k j) * x j =
          a * \sum_(i < ncols G) \sum_(j < ncols G)
                x i * (\sum_(k < nrows G) ent2 G k i * ent2 G k j) * x j.
  rewrite mulr_sumr; apply: eq_bigr => i _.
  rewrite mulr_sumr; apply: eq_bigr => j _.
  by rewrite [x i * _]mulrCA -mulrA.
by rewrite mulr_ge0 // (gram_quadratic_form_ge0 _ _ (fun k i => ent2 G k i)).
Qed.

(** ** The full curvature matrices *)

(** C6. For every batch, the vector the Empirical-Fisher [diag] returns is the
    diagonal of the matrix the Empirical-Fisher [full] returns on that batch
    (and the two losses agree): [full] is [factor * Gs^T Gs], whose diagonal
    entry [j] is [factor] times the sum over the examples of the squared
    gradient of parameter entry [j]. *)
Theorem EF_diag_is_diagonal_of_full (self : BackPackEF) X y w w' m :
  ready w self m -> ready w' self m -> parameters m != [::] ->
  let Gs := individual_gradients (forward_loss self X y) m in
  exists l d H,
    [/\ (diag self X y w).2 = Ok (l, d),
        (full self X y w').2 = Ok (l, H),
        size d = nrows H /\ nrows H = ncols H,
        forall j, (j < size d)%N -> nth 0 d j = ent2 H j j
      & forall j, ent2 H j j = factor self * \sum_(k < nrows Gs) ent2 Gs k j ^+ 2].
Proof.
move=> rdy rdy' ne Gs.
exists (factor self * loss_data (forward_loss self X y)).
exists (scale1 (factor self) (sum_grad_squared (forward_loss self X y) m)).
exists (scale2 (factor self) (matmul (transpose Gs) Gs)).
have diagH j : ent2 (scale2 (factor self) (matmul (transpose Gs) Gs)) j j =
               factor self * \sum_(k < nrows Gs) ent2 Gs k j ^+ 2.
  by rewrite /=; congr (_ * _); apply: eq_bigr => k _; rewrite expr2.
have sz : size (scale1 (factor self) (sum_grad_squared (forward_loss self X y) m)) =
          sumn [seq numel p | p <- parameters m].
  by rewrite size_map size_flatten_mkseq.
split=> //; first exact: BackPackGGN_diagE || exact: BackPackEF_diagE.
- exact: BackPackEF_fullE.
- by rewrite sz /= sumn_ncols_grad_batches.
- move=> j; rewrite sz => j_lt; rewrite diagH (nth_map 0) ?size_flatten_mkseq //.
  by rewrite /sum_grad_squared nth_flatten_sum_squares.
Qed.

(** C8. For every batch, the matrix the Empirical-Fisher [full] returns is the
    [P x P] matrix [factor * Gs^T Gs] of the stacked per-example gradients
    [Gs] ([P] the number of parameter entries), and the matrix the exact GGN
    [full] returns under a regression likelihood is the [P x P] contraction
    [sum_m sum_k J_mkp J_mkq] of the Jacobians with themselves; both are
    symmetric and positive semidefinite. *)
Theorem full_curvature_symmetric_psd mdl lik ll w0 :
  (forall w1 (self : BackPackEF),
     BackPackEF_init mdl lik ll w0 = (w1, Ok self) ->
     forall w m X y, ready w self m -> parameters m != [::] ->
     let Gs := individual_gradients (forward_loss self X y) m in
     let P := sumn [seq numel p | p <- parameters m] in
     exists l H,
       [/\ (full self X y w).2 = Ok (l, H),
           nrows H = P /\ ncols H = P,
           forall i j,
             ent2 H i j =
             likelihood_factor lik * \sum_(k < nrows Gs) ent2 Gs k i * ent2 Gs k j,
           symmetric H
         & positive_semidefinite H]) /\
  (forall w1 (self : BackPackGGN),
     BackPackGGN_init mdl "regression" ll false w0 = (w1, Ok self) ->
     forall w X y,
     let j := jacobian_result self X in
     exists l H,
       [/\ (full self X y w).2 = Ok (l, H),
           nrows H = jac_P j /\ ncols H = jac_P j,
           forall a b,
             ent2 H a b =
             \sum_(m < jac_M j) \sum_(k < jac_K j) jac_Js j m k a * jac_Js j m k b,
           symmetric H
         & positive_semidefinite H]).
Proof.
split=> w1 self.
  move/BackPackEF_init_inv/BackPackInterface_init_fields => [_ _ _ facE _].
  move=> w m X y rdy ne Gs P.
  have factor_ge0 : 0 <= factor self by rewrite facE likelihood_factor_ge0.
  have [sym psd] := gram_symmetric_psd Gs factor_ge0.
  exists (factor self * loss_data (forward_loss self X y)).
  exists (scale2 (factor self) (matmul (transpose Gs) Gs)).
  split.
  - exact: BackPackEF_fullE.
  - by rewrite /P /= sumn_ncols_grad_batches.
  - by move=> i j; rewrite /= facE.
  - exact: sym.
  - exact: psd.
case/BackPackGGN_init_inv => /BackPackInterface_init_fields [likE _ _ _ _].
move=> exact w X y j.
exists (factor self * lossfunc_apply eng (lossfunc self) (f_of j) y).
exists (einsum_mkp_mkq_pq (Js_of j) (Js_of j)).
split.
- by rewrite (BackPackGGN_fullE X y w exact) likE.
- by [].
- by [].
- split=> //= a b; apply: eq_bigr => m _; apply: eq_bigr => k _.
  by rewrite mulrC.
- move=> x /=.
  under eq_bigr => a _.
    under eq_bigr => b _ do rewrite mulr_sumr mulr_suml.
    rewrite exchange_big /=; over.
  rewrite exchange_big /= sumr_ge0 // => m _.
  exact: (gram_quadratic_form_ge0 _ _ (fun k a => jac_Js j m k a)).
Qed.

(** C2. With a classification likelihood, [full] of the exact GGN family
    returns [H] with
    [H_pq = sum_m sum_{c,k} J_mcp * (diag(p_m) - p_m p_m^T)_ck * J_mkq],
    where [p_m] is the softmax of the raw outputs of example [m] and [J] the
    Jacobians the Jacobian routine returned: the full softmax Hessian, with
    its off-diagonal entries [- p_mc * p_mk]. *)
Theorem classification_full_ggn_softmax_hessian mdl ll w0 w1 (self : BackPackGGN) :
  BackPackGGN_init mdl "classification" ll false w0 = (w1, Ok self) ->
  forall X y w,
  let j := jacobian_result self X in
  let J := jac_Js j in
  let p := fun m c =>
    exp eng (jac_f j m c) / \sum_(c' < jac_K j) exp eng (jac_f j m c') in
  exists l H,
    [/\ (full self X y w).2 = Ok (l, H),
        nrows H = jac_P j /\ ncols H = jac_P j
      & forall a b,
          ent2 H a b =
          \sum_(m < jac_M j) \sum_(c < jac_K j) \sum_(k < jac_K j)
            J m c a * ((if c == k :> nat then p m c else 0) - p m c * p m k)
            * J m k b].
Proof.
case/BackPackGGN_init_inv => /BackPackInterface_init_fields [likE _ _ _ _] exact X y w.
rewrite (BackPackGGN_fullE X y w exact) likE /=.
eexists; eexists; split; [reflexivity | by [] | move=> a b /=].
apply: eq_bigr => m _; apply: eq_bigr => c _; apply: eq_bigr => k _.
by rewrite [X in _ - X]mulrC.
Qed.

(** C3, as the code has it. With a regression likelihood, [full] of the exact
    GGN family returns the loss [0.5 * lossfunc(f, y)] and the curvature
    [sum over the examples of J_example^T J_example]: the [0.5] scales the
    loss only, the curvature carries no factor. *)
Theorem regression_full_ggn_is_gauss_newton mdl ll w0 w1 (self : BackPackGGN) :
  BackPackGGN_init mdl "regression" ll false w0 = (w1, Ok self) ->
  forall X y w,
  let j := jacobian_result self X in
  let J := example_jacobian (Js_of j) in
  exists H,
    [/\ (full self X y w).2 =
          Ok (2%:R^-1 * lossfunc_apply eng (MSELoss ReduceSum) (f_of j) y, H),
        nrows H = jac_P j /\ ncols H = jac_P j
      & forall a b,
          ent2 H a b = \sum_(m < jac_M j) ent2 (matmul (transpose (J m)) (J m)) a b].
Proof.
case/BackPackGGN_init_inv => /BackPackInterface_init_fields [likE _ lossE facE _].
move=> exact X y w.
rewrite (BackPackGGN_fullE X y w exact) likE lossE facE /=.
by eexists; split.
Qed.

(** ** Scaling by the factor *)

(** C1, as the code has it. For an interface built by its constructor the
    factor is [0.5] under regression and [1.0] under classification.  [diag]
    and [kron] of the GGN family and [diag] and [full] of the Empirical-Fisher
    family return [factor * loss] and [factor * curvature]; [full] of the
    exact GGN family returns [factor * loss] and the contraction of the
    Jacobians as it is, with no factor. *)
Theorem factor_scales_loss_and_curvature mdl lik ll st w0 :
  let a := likelihood_factor lik in
  [/\ likelihood_factor "regression" = 2%:R^-1 /\
      likelihood_factor "classification" = 1,
      forall w1 (self : BackPackGGN),
        BackPackGGN_init mdl lik ll st w0 = (w1, Ok self) ->
        forall w m X y N,
        ready w self m -> parameters m != [::] -> N != 0%N ->
        let l := forward_loss self X y in
        let j := jacobian_result self X in
        [/\ (diag self X y w).2 = Ok (a * loss_data l, scale1 a (diag_ggn st l m)),
            (kron self X y N w).2 =
              Ok (a * loss_data l,
                  Kron_rmul eng a
                    (mkKron [seq rescaled_group ((len eng y)%:R / N%:R) F
                            | F <- kron_factors st l m]))
          & st = false ->
            (full self X y w).2 =
              Ok (a * lossfunc_apply eng (likelihood_lossfunc lik) (f_of j) y,
                  full_ggn lik j)]
    & forall w1 (self : BackPackEF),
        BackPackEF_init mdl lik ll w0 = (w1, Ok self) ->
        forall w m X y,
        ready w self m -> parameters m != [::] ->
        let l := forward_loss self X y in
        let Gs := individual_gradients l m in
        (diag self X y w).2 = Ok (a * loss_data l, scale1 a (sum_grad_squared l m)) /\
        (full self X y w).2 = Ok (a * loss_data l, scale2 a (matmul (transpose Gs) Gs))].
Proof.
move=> a; split=> // w1 self.
  case/BackPackGGN_init_inv => /BackPackInterface_init_fields.
  move=> [likE _ lossE facE _] stE w m X y N rdy ne N_pos l j.
  rewrite (BackPackGGN_diagE X y rdy ne) (BackPackGGN_kronE X y rdy N_pos).
  rewrite facE stE; split=> // exact.
  by rewrite BackPackGGN_fullE ?stE // facE lossE likE.
move/BackPackEF_init_inv/BackPackInterface_init_fields.
move=> [_ _ _ facE _] w m X y rdy ne l Gs.
by rewrite (BackPackEF_diagE X y rdy ne) (BackPackEF_fullE X y rdy ne) facE.
Qed.

(** ** Rescaling of the Kronecker factors *)

Lemma natr_div_same (n : nat) : n != 0%N -> n%:R / n%:R = 1 :> R.
Proof. by move=> n_pos; rewrite divff // pnatr_eq0. Qed.

Lemma rescaled_group_second (a : R) (F : seq tensor2) :
  size F = 2 ->
  [/\ size (rescaled_group a F) = 2,
      nth tensor2_0 (rescaled_group a F) 0 = nth tensor2_0 F 0,
      nrows (nth tensor2_0 (rescaled_group a F) 1) = nrows (nth tensor2_0 F 1) /\
      ncols (nth tensor2_0 (rescaled_group a F) 1) = ncols (nth tensor2_0 F 1)
    & forall r c, ent2 (nth tensor2_0 (rescaled_group a F) 1) r c =
                  ent2 (nth tensor2_0 F 1) r c * a].
Proof. by case: F => [|A [|B [|C F]]]. Qed.

Lemma rescaled_group_one (F : seq tensor2) k :
  same_tensor2 (nth tensor2_0 (rescaled_group 1 F) k) (nth tensor2_0 F k).
Proof.
rewrite /rescaled_group; case: ifP => [|_]; last by split.
case: F => [|A [|B [|C F]]] //= _; case: k => [|[|k]]; split=> //= r c.
by rewrite mulr1.
Qed.

(** C4. In [kron(X, y, N)] of the GGN family (with a dataset size [N > 0]),
    the collection handed to the final multiplication by [factor] has, in
    every group of exactly two factors, its second factor multiplied by
    [M/N] with [M = len(y)] and its first factor untouched; every other group
    is untouched; with [M = N] every factor is unchanged. *)
Theorem kron_rescales_second_factor (self : BackPackGGN) X y N w m :
  ready w self m -> (0 < N)%N ->
  let groups := kron_factors (stochastic self) (forward_loss self X y) m in
  let a : R := (len eng y)%:R / N%:R in
  exists l groups',
    [/\ (kron self X y N w).2 = Ok (l, Kron_rmul eng (factor self) (mkKron groups')),
        size groups' = size groups,
        forall i, (i < size groups)%N ->
          let F := nth [::] groups i in
          let F' := nth [::] groups' i in
          if size F == 2
          then [/\ size F' = 2,
                   nth tensor2_0 F' 0 = nth tensor2_0 F 0,
                   nrows (nth tensor2_0 F' 1) = nrows (nth tensor2_0 F 1) /\
                   ncols (nth tensor2_0 F' 1) = ncols (nth tensor2_0 F 1)
                 & forall r c, ent2 (nth tensor2_0 F' 1) r c =
                               ent2 (nth tensor2_0 F 1) r c * a]
          else F' = F
      & len eng y = N ->
        forall i k, (i < size groups)%N ->
          same_tensor2 (nth tensor2_0 (nth [::] groups' i) k)
                       (nth tensor2_0 (nth [::] groups i) k)].
Proof.
move=> rdy; rewrite lt0n => N_pos groups a.
exists (factor self * loss_data (forward_loss self X y)).
exists [seq rescaled_group a F | F <- groups].
split; first exact: BackPackGGN_kronE.
- by rewrite size_map.
- move=> i i_lt; rewrite (nth_map [::]) //=.
  case: ifP => [/eqP szF|szF]; first exact: rescaled_group_second.
  by rewrite /rescaled_group szF.
- move=> MN i k i_lt; rewrite (nth_map [::]) // /a MN natr_div_same //.
  exact: rescaled_group_one.
Qed.

(** ** The [last_layer] restriction *)

(** C9. With [last_layer = True] the operations that run a forward pass
    ([diag], [kron] of the GGN family, [diag], [full] of the Empirical-Fisher
    family) compute the loss from the output of the whole model on [X] and
    assemble the curvature from the parameters of [model.last_layer] alone;
    the loss is the one the family returns with [last_layer = False]. *)
Theorem last_layer_restricts_curvature_only mdl lik st w0 w0' :
  (forall wT wF (selfT selfF : BackPackGGN),
     BackPackGGN_init mdl lik true st w0 = (wT, Ok selfT) ->
     BackPackGGN_init mdl lik false st w0' = (wF, Ok selfF) ->
     forall w w' last X y N,
     ready w selfT last -> ready w' selfF mdl ->
     parameters last != [::] -> parameters mdl != [::] -> N != 0%N ->
     let a := likelihood_factor lik in
     let l := lossfunc_call (likelihood_lossfunc lik)
                            (mkOutput (forward mdl X) mdl X) y in
     let b : R := (len eng y)%:R / N%:R in
     [/\ attr_last_layer mdl = Some last,
         (diag selfT X y w).2 = Ok (a * loss_data l, scale1 a (diag_ggn st l last)),
         (diag selfF X y w').2 = Ok (a * loss_data l, scale1 a (diag_ggn st l mdl)),
         (kron selfT X y N w).2 =
           Ok (a * loss_data l,
               Kron_rmul eng a
                 (mkKron [seq rescaled_group b F | F <- kron_factors st l last]))
       & (kron selfF X y N w').2 =
           Ok (a * loss_data l,
               Kron_rmul eng a
                 (mkKron [seq rescaled_group b F | F <- kron_factors st l mdl]))]) /\
  (forall wT wF (selfT selfF : BackPackEF),
     BackPackEF_init mdl lik true w0 = (wT, Ok selfT) ->
     BackPackEF_init mdl lik false w0' = (wF, Ok selfF) ->
     forall w w' last X y,
     ready w selfT last -> ready w' selfF mdl ->
     parameters last != [::] -> parameters mdl != [::] ->
     let a := likelihood_factor lik in
     let l := lossfunc_call (likelihood_lossfunc lik)
                            (mkOutput (forward mdl X) mdl X) y in
     let GT := individual_gradients l last in
     let GF := individual_gradients l mdl in
     [/\ attr_last_layer mdl = Some last,
         (diag selfT X y w).2 = Ok (a * loss_data l, scale1 a (sum_grad_squared l last)),
         (diag selfF X y w').2 = Ok (a * loss_data l, scale1 a (sum_grad_squared l mdl)),
         (full selfT X y w).2 = Ok (a * loss_data l, scale2 a (matmul (transpose GT) GT))
       & (full selfF X y w').2 =
           Ok (a * loss_data l, scale2 a (matmul (transpose GF) GF))]).
Proof.
split=> wT wF selfT selfF.
  case/BackPackGGN_init_inv => /BackPackInterface_init_fields [_ mT lT fT llT] stT.
  case/BackPackGGN_init_inv => /BackPackInterface_init_fields [_ mF lF fF llF] stF.
  move=> w w' last X y N rdy rdy' ne ne' N_pos a l b.
  have lastE : attr_last_layer mdl = Some last.
    by case: rdy; rewrite llT mT.
  have lTE : forward_loss selfT X y = l by rewrite /forward_loss lT mT.
  have lFE : forward_loss selfF X y = l by rewrite /forward_loss lF mF.
  rewrite (BackPackGGN_diagE X y rdy ne) (BackPackGGN_diagE X y rdy' ne').
  rewrite (BackPackGGN_kronE X y rdy N_pos) (BackPackGGN_kronE X y rdy' N_pos).
  by rewrite lTE lFE fT fF stT stF.
move/BackPackEF_init_inv/BackPackInterface_init_fields => [_ mT lT fT llT].
move/BackPackEF_init_inv/BackPackInterface_init_fields => [_ mF lF fF llF].
move=> w w' last X y rdy rdy' ne ne' a l GT GF.
have lastE : attr_last_layer mdl = Some last.
  by case: rdy; rewrite llT mT.
have lTE : forward_loss selfT X y = l by rewrite /forward_loss lT mT.
have lFE : forward_loss selfF X y = l by rewrite /forward_loss lF mF.
rewrite (BackPackEF_diagE X y rdy ne) (BackPackEF_diagE X y rdy' ne').
rewrite (BackPackEF_fullE X y rdy ne) (BackPackEF_fullE X y rdy' ne').
by rewrite lTE lFE fT fF.
Qed.

(** ** The interface stays ready across calls *)

Lemma keeps_bind A B (c : M A) (k : A -> M B) :
  keeps_modules c -> (forall a, keeps_modules (k a)) -> keeps_modules (bind c k).
Proof.
move=> keep_c keep_k w; rewrite /bind -(keep_c w).
by case: (c w) => w' [a|e] //=; rewrite keep_k.
Qed.

Lemma keeps_mapM A B (f : A -> M B) s :
  (forall a, keeps_modules (f a)) -> keeps_modules (mapM f s).
Proof.
move=> keep_f; elim: s => [//|a s IH] /=.
by apply: keeps_bind => // b; apply: keeps_bind.
Qed.

Lemma keeps_getattr_flat ext p : keeps_modules (getattr_flat ext p).
Proof. by move=> w; rewrite /getattr_flat; case: (attrs w ext p) => [[]|]. Qed.

Lemma keeps_getattr_factors ext p : keeps_modules (getattr_factors ext p).
Proof. by move=> w; rewrite /getattr_factors; case: (attrs w ext p) => [[]|]. Qed.

Lemma keeps_getattr_per_example ext p : keeps_modules (getattr_per_example ext p).
Proof. by move=> w; rewrite /getattr_per_example; case: (attrs w ext p) => [[]|]. Qed.

Lemma keeps__model self : keeps_modules (_model self).
Proof. by move=> w; rewrite _modelE. Qed.

Lemma keeps_rescale_groups groups m n : keeps_modules (rescale_groups groups m n).
Proof.
elim: groups => [//|F groups IH] /=.
apply: keeps_bind => [|F']; last exact: keeps_bind.
by case: (size F == 2) => //; apply: keeps_bind => //; rewrite /true_div; case: eqP.
Qed.

Ltac keep_modules :=
  repeat first
    [ exact: keeps__model | exact: keeps_rescale_groups
    | exact/keeps_mapM/keeps_getattr_flat
    | exact/keeps_mapM/keeps_getattr_factors
    | exact/keeps_mapM/keeps_getattr_per_example
    | by [] | apply: keeps_bind | move=> ? ].

Lemma operations_keep_modules :
  (forall (self : BackPackGGN) X y N,
     [/\ keeps_modules (diag self X y), keeps_modules (kron self X y N)
       & keeps_modules (full self X y)]) /\
  (forall (self : BackPackEF) X y N,
     [/\ keeps_modules (diag self X y), keeps_modules (kron self X y N)
       & keeps_modules (full self X y)]).
Proof.
split=> self X y N; split; rewrite /diag /kron /full /=.
- by rewrite /BackPackGGN_diag /_get_diag_ggn; case: (stochastic self); keep_modules.
- rewrite /BackPackGGN_kron /_get_kron_factors /_rescale_kron_factors.
  by case: (stochastic self); keep_modules.
- rewrite /BackPackGGN_full; case: (stochastic self) => //.
  by case: (last_layer self); keep_modules.
- by rewrite /BackPackEF_diag; keep_modules.
- by [].
- by rewrite /BackPackEF_full /_get_individual_gradients; keep_modules.
Qed.

Lemma ready_after A (c : M A) w self m :
  keeps_modules c -> ready w self m -> ready (c w).1 self m.
Proof. by move=> keep [mE tr]; split=> //; rewrite /tracked keep. Qed.

(** * Further properties of the code *)

(** ** Outcome of the constructors *)

(** X1. The constructors check the likelihood first and resolve
    [self._model] second: an invalid likelihood raises [AssertionError] even
    when [model.last_layer] is missing; a valid one with [last_layer = True]
    on a model without that attribute raises [AttributeError]; otherwise the
    construction succeeds and registers [self._model] (the last layer alone
    when [last_layer] is set) and the loss function.  A failure leaves the
    world as it was. *)
Theorem constructors_outcome mdl lik ll st w :
  let super :=
    mkBackPackInterface
      (mkCurvatureInterface lik mdl (likelihood_lossfunc lik) (likelihood_factor lik))
      ll in
  BackPackGGN_init mdl lik ll st w =
    (if ~~ string_in lik valid_likelihoods then (w, Raise AssertionError)
     else if curvature_module mdl ll is Some m
          then (registered m (likelihood_lossfunc lik) w, Ok (mkBackPackGGN super st))
          else (w, Raise (AttributeError "last_layer"))) /\
  BackPackEF_init mdl lik ll w =
    (if ~~ string_in lik valid_likelihoods then (w, Raise AssertionError)
     else if curvature_module mdl ll is Some m
          then (registered m (likelihood_lossfunc lik) w, Ok (mkBackPackEF super))
          else (w, Raise (AttributeError "last_layer"))).
Proof.
move=> super; rewrite BackPackGGN_initE BackPackEF_initE.
have -> : BackPackInterface_init mdl lik ll w =
          if ~~ string_in lik valid_likelihoods then (w, Raise AssertionError)
          else if curvature_module mdl ll is Some m
               then (registered m (likelihood_lossfunc lik) w, Ok super)
               else (w, Raise (AttributeError "last_layer")).
  rewrite /BackPackInterface_init /CurvatureInterface_init /bind /assert.
  rewrite -/valid_likelihoods /super /likelihood_lossfunc /likelihood_factor.
  case: (string_in lik valid_likelihoods) => //=.
  by case: (String.eqb lik "regression"); rewrite /ret _modelE /=;
     case: (curvature_module mdl ll).
by case: (string_in lik valid_likelihoods) => //=; case: (curvature_module mdl ll).
Qed.

(** ** Rescaling across batches *)

Lemma BackPackGGN_kron_div0E (self : BackPackGGN) X y w m :
  ready w self m ->
  (kron self X y 0 w).2 =
  if has (fun F => size F == 2)
         (kron_factors (stochastic self) (forward_loss self X y) m)
  then Raise ZeroDivisionError
  else Ok (factor self * loss_data (forward_loss self X y),
           Kron_rmul eng (factor self)
             (mkKron (kron_factors (stochastic self) (forward_loss self X y) m))).
Proof.
case=> mE tr.
rewrite /kron /= /BackPackGGN_kron /_get_kron_factors /kron_factors.
case: (stochastic self); rewrite /bind /= /bind _modelE mE.
- rewrite (@mapM_getattr_factors _ (fun p => kfac_of eng (forward_loss self X y) p)).
  + by move=> p p_m; rewrite (@stored_after_backward _ _ _ w) ?(allP tr).
  + by rewrite /ret /_rescale_kron_factors /bind rescale_groups_div0; case: has.
- rewrite (@mapM_getattr_factors _ (fun p => kflr_of eng (forward_loss self X y) p)).
  + by move=> p p_m; rewrite (@stored_after_backward _ _ _ w) ?(allP tr).
  + by rewrite /ret /_rescale_kron_factors /bind rescale_groups_div0; case: has.
Qed.

(** X2. With a dataset size [N = 0], [kron] raises [ZeroDivisionError] exactly
    when some factor group has two factors; when none has, no division takes
    place and the groups are returned as BackPACK stored them. *)
Theorem kron_zero_dataset_size (self : BackPackGGN) X y w m :
  ready w self m ->
  let groups := kron_factors (stochastic self) (forward_loss self X y) m in
  (kron self X y 0 w).2 =
  if has (fun F => size F == 2) groups then Raise ZeroDivisionError
  else Ok (factor self * loss_data (forward_loss self X y),
           Kron_rmul eng (factor self) (mkKron groups)).
Proof. by move=> rdy groups; exact: BackPackGGN_kron_div0E. Qed.


(** ** Passes through the engine *)

Lemma reads_bind A B (c : M A) (k : A -> M B) :
  reads_only c -> (forall a, reads_only (k a)) -> reads_only (bind c k).
Proof.
move=> read_c read_k w; rewrite /bind -{2}(read_c w).
by case: (c w) => w' [a|e] //=; rewrite read_k.
Qed.

Lemma reads_mapM A B (f : A -> M B) s :
  (forall a, reads_only (f a)) -> reads_only (mapM f s).
Proof.
move=> read_f; elim: s => [//|a s IH] /=.
by apply: reads_bind => // b; apply: reads_bind.
Qed.

Lemma reads_getattr_flat ext p : reads_only (getattr_flat ext p).
Proof. by move=> w; rewrite /getattr_flat; case: (attrs w ext p) => [[]|]. Qed.

Lemma reads_getattr_factors ext p : reads_only (getattr_factors ext p).
Proof. by move=> w; rewrite /getattr_factors; case: (attrs w ext p) => [[]|]. Qed.

Lemma reads_getattr_per_example ext p : reads_only (getattr_per_example ext p).
Proof. by move=> w; rewrite /getattr_per_example; case: (attrs w ext p) => [[]|]. Qed.

Lemma reads__model self : reads_only (_model self).
Proof. by move=> w; rewrite _modelE. Qed.

Lemma reads_rescale_groups groups m n : reads_only (rescale_groups groups m n).
Proof.
elim: groups => [//|F groups IH] /=.
apply: reads_bind => [|F']; last exact: reads_bind.
by case: (size F == 2) => //; apply: reads_bind => //; rewrite /true_div; case: eqP.
Qed.

Ltac read_only :=
  repeat first
    [ exact: reads__model | exact: reads_rescale_groups
    | exact/reads_mapM/reads_getattr_flat
    | exact/reads_mapM/reads_getattr_factors
    | exact/reads_mapM/reads_getattr_per_example
    | by [] | apply: reads_bind | move=> ? ].

Lemma reads__get_diag_ggn self : reads_only (_get_diag_ggn self).
Proof. by rewrite /_get_diag_ggn; case: (stochastic self); read_only. Qed.

Lemma reads__get_kron_factors self : reads_only (_get_kron_factors self).
Proof. by rewrite /_get_kron_factors; case: (stochastic self); read_only. Qed.

Lemma reads__get_individual_gradients self :
  reads_only (_get_individual_gradients self).
Proof. by rewrite /_get_individual_gradients; read_only. Qed.

(** X4. Whatever their outcome, [diag] and [kron] of the GGN family and
    [diag] and [full] of the Empirical-Fisher family run exactly one forward
    pass of the whole model and then one backward pass, under the extension
    the operation and the [stochastic] flag select, also when reading the
    quantities or the rescaling raises afterwards; none of them changes the
    registry of extended modules and loss functions. *)
Theorem operations_pass_accounting :
  (forall (self : BackPackGGN) X y N w,
     let fwd := ForwardPass (module_id (model self)) in
     [/\ passes (diag self X y w).1 =
           rcons (rcons (passes w) fwd)
                 (BackwardPass (if stochastic self then DiagGGNMC else DiagGGNExact)),
         passes (kron self X y N w).1 =
           rcons (rcons (passes w) fwd)
                 (BackwardPass (if stochastic self then KFAC else KFLR)),
         extended_modules (diag self X y w).1 = extended_modules w /\
         extended_lossfuncs (diag self X y w).1 = extended_lossfuncs w
       & extended_modules (kron self X y N w).1 = extended_modules w /\
         extended_lossfuncs (kron self X y N w).1 = extended_lossfuncs w]) /\
  (forall (self : BackPackEF) X y w,
     let fwd := ForwardPass (module_id (model self)) in
     [/\ passes (diag self X y w).1 =
           rcons (rcons (passes w) fwd) (BackwardPass SumGradSquared),
         passes (full self X y w).1 =
           rcons (rcons (passes w) fwd) (BackwardPass BatchGrad),
         extended_modules (diag self X y w).1 = extended_modules w /\
         extended_lossfuncs (diag self X y w).1 = extended_lossfuncs w
       & extended_modules (full self X y w).1 = extended_modules w /\
         extended_lossfuncs (full self X y w).1 = extended_lossfuncs w]).
Proof.
split.
- move=> self X y N w fwd.
  have -> : (diag self X y w).1 =
            after_forward_backward self
              (if stochastic self then DiagGGNMC else DiagGGNExact) X y w.
    have rest : reads_only
      (dggn <- _get_diag_ggn self ;;
       ret (factor self * detach (forward_loss self X y), scale1 (factor self) dggn)).
      by apply: reads_bind => //; exact: reads__get_diag_ggn.
    exact: (rest (after_forward_backward self _ X y w)).
  have -> : (kron self X y N w).1 =
            after_forward_backward self (if stochastic self then KFAC else KFLR) X y w.
    have rest : reads_only
      (K <- _get_kron_factors self ;;
       K' <- _rescale_kron_factors K (len eng y) N ;;
       ret (factor self * detach (forward_loss self X y),
            Kron_rmul eng (factor self) K')).
      apply: reads_bind => [|K]; first exact: reads__get_kron_factors.
      by rewrite /_rescale_kron_factors; read_only.
    exact: (rest (after_forward_backward self _ X y w)).
  by [].
- move=> self X y w fwd.
  have -> : (diag self X y w).1 = after_forward_backward self SumGradSquared X y w.
    have rest : reads_only
      (m <- _model self ;;
       ts <- mapM (getattr_flat SumGradSquared) (parameters m) ;;
       diag_EF <- lift_result (torch_cat ts) ;;
       ret (factor self * detach (forward_loss self X y),
            scale1 (factor self) diag_EF)).
      by read_only.
    exact: (rest (after_forward_backward self _ X y w)).
  have -> : (full self X y w).1 = after_forward_backward self BatchGrad X y w.
    have rest : reads_only
      (Gs <- _get_individual_gradients self ;;
       ret (factor self * detach (forward_loss self X y),
            scale2 (factor self) (matmul (transpose Gs) Gs))).
      by apply: reads_bind => //; exact: reads__get_individual_gradients.
    exact: (rest (after_forward_backward self _ X y w)).
  by [].
Qed.

(** ** Re-use of one interface across calls *)

(** X5. What the operations on deterministic quantities return ([diag] and
    [kron] of the exact GGN family, [diag] and [full] of the Empirical-Fisher
    family) depends on their own batch only: after any computation that
    leaves the registry of extended modules as it is (an earlier [diag] or
    [kron] on another batch, for instance), they return what they return
    without it, so no quantity left on the parameters by an earlier call is
    ever read. *)
Theorem results_independent_of_earlier_calls A (c : M A)
    (self : BackPackInterface) w m X y N :
  keeps_modules c -> ready w self m -> parameters m != [::] ->
  let ggn := mkBackPackGGN self false in
  let ef := mkBackPackEF self in
  [/\ (diag ggn X y (c w).1).2 = (diag ggn X y w).2,
      (kron ggn X y N (c w).1).2 = (kron ggn X y N w).2,
      (diag ef X y (c w).1).2 = (diag ef X y w).2
    & (full ef X y (c w).1).2 = (full ef X y w).2].
Proof.
move=> keep rdy ne ggn ef.
have rdy' : ready (c w).1 self m by exact: ready_after.
split.
- by rewrite (@BackPackGGN_diagE ggn X y _ m rdy' ne) (@BackPackGGN_diagE ggn X y _ m rdy ne).
- case: (eqVneq N 0%N) => [->|N_pos].
    by rewrite (@BackPackGGN_kron_div0E ggn X y _ m rdy')
               (@BackPackGGN_kron_div0E ggn X y _ m rdy).
  by rewrite (@BackPackGGN_kronE ggn X y N _ m rdy' N_pos)
             (@BackPackGGN_kronE ggn X y N _ m rdy N_pos).
- by rewrite (@BackPackEF_diagE ef X y _ m rdy' ne) (@BackPackEF_diagE ef X y _ m rdy ne).
- by rewrite (@BackPackEF_fullE ef X y _ m rdy' ne) (@BackPackEF_fullE ef X y _ m rdy ne).
Qed.

(** ** The two branches of [_get_full_ggn] *)

Lemma sum_kronecker (K : nat) (G : nat -> R) (c : 'I_K) :
  \sum_(k < K) (if c == k :> nat then G k else 0) = G c.
Proof.
rewrite (bigD1 c) //= eqxx big1 ?addr0 // => k.
by rewrite -val_eqE /= eq_sym => /negPf ->.
Qed.

(** X6. The curvature [_get_full_ggn] returns under regression is the
    contraction its classification branch computes, with the identity in
    place of [H_lik]: the regression branch is the case of an identity
    Hessian of the loss in the outputs. *)
Theorem regression_branch_is_identity_hessian
    (self : CurvatureInterface) (Js : tensor3) (f : tensor2) (y : Target) w :
  likelihood self = "regression"%string ->
  exists l H,
    _get_full_ggn self Js f y w = (w, Ok (l, H)) /\
    forall p q,
      ent2 H p q = ent2 (einsum_mcp_mck_mkq_pq Js (identity_hessian Js) Js) p q.
Proof.
move=> reg; rewrite /_get_full_ggn reg /=.
eexists; eexists; split; first by [].
move=> p q /=; apply: eq_bigr => m _; apply: eq_bigr => c _.
under eq_bigr => k _.
  rewrite -mulrA (fun_if (fun z => z * _)) mul0r mul1r.
  rewrite (fun_if (fun z => ent3 Js m c p * z)) mulr0.
  over.
by rewrite (sum_kronecker (fun k => ent3 Js m c p * ent3 Js m k q)).
Qed.

Lemma sum_cat_examples (m1 m2 : nat) (F1 F2 : nat -> R) :
  \sum_(m < m1 + m2) (if (m < m1)%N then F1 m else F2 (m - m1)%N) =
  \sum_(m < m1) F1 m + \sum_(m < m2) F2 m.
Proof.
rewrite big_split_ord /=; congr (_ + _); apply: eq_bigr => m _.
  by rewrite ltn_ord.
by rewrite ltnNge leq_addr /= addKn.
Qed.

(** X7. The full GGN adds up over batches: for Jacobians and outputs stacked
    along the example dimension, the curvature [_get_full_ggn] returns is the
    sum of the curvatures it returns for the two parts, under either
    likelihood (the softmax is taken example by example). *)
Theorem full_ggn_additive_over_batches
    (self : CurvatureInterface) (Js1 Js2 : tensor3) (f1 f2 : tensor2)
    (y y1 y2 : Target) w :
  dim1 Js1 = dim1 Js2 -> nrows f1 = dim0 Js1 -> ncols f1 = ncols f2 ->
  exists l l1 l2 H H1 H2,
    [/\ _get_full_ggn self (cat0_tensor3 Js1 Js2) (cat0_tensor2 f1 f2) y w =
          (w, Ok (l, H)),
        _get_full_ggn self Js1 f1 y1 w = (w, Ok (l1, H1)),
        _get_full_ggn self Js2 f2 y2 w = (w, Ok (l2, H2))
      & forall p q, ent2 H p q = ent2 H1 p q + ent2 H2 p q].
Proof.
case: Js1 => M1 K P1 J1; case: Js2 => M2 K2 P2 J2.
case: f1 => n1 C F1; case: f2 => n2 C2 F2 /= K_eq n_eq C_eq.
rewrite -{K2}K_eq -{C2}C_eq {n1}n_eq.
rewrite /_get_full_ggn; case: (String.eqb (likelihood self) "regression").
  do 6!eexists; split; [by [] | by [] | by [] | move=> p q /=].
  rewrite -(sum_cat_examples M1 M2
              (fun m => \sum_(k < K) J1 m k p * J1 m k q)
              (fun m => \sum_(k < K) J2 m k p * J2 m k q)).
  by apply: eq_bigr => m _; case: ifP.
do 6!eexists; split; [by [] | by [] | by [] | move=> p q /=].
rewrite big_split_ord /=; congr (_ + _); apply: eq_bigr => m _;
  apply: eq_bigr => c _; apply: eq_bigr => k _.
  by rewrite !ltn_ord.
by rewrite !ltnNge !leq_addr /= !addKn.
Qed.

(** ** Empty batches *)

(** X8. On a batch without examples the curvature is zero and keeps its
    shape: [full] of the exact GGN family returns the [P x P] zero matrix
    under either likelihood, and the Empirical-Fisher family returns a vector
    of [P] zeros from [diag] and the [P x P] zero matrix from [full], [P]
    being the number of parameter entries. *)
Theorem empty_batch_zero_curvature :
  (forall (self : BackPackGGN) X y w,
     stochastic self = false -> jac_M (jacobian_result self X) = 0%N ->
     exists l H,
       [/\ (full self X y w).2 = Ok (l, H),
           nrows H = jac_P (jacobian_result self X) /\
           ncols H = jac_P (jacobian_result self X)
         & forall a b, ent2 H a b = 0]) /\
  (forall (self : BackPackEF) X y w m,
     ready w self m -> parameters m != [::] ->
     nrows (forward (model self) X) = 0%N ->
     exists l d H,
       [/\ (diag self X y w).2 = Ok (l, d),
           (full self X y w).2 = Ok (l, H),
           [/\ size d = sumn [seq numel p | p <- parameters m],
               nrows H = size d & ncols H = size d],
           forall j, nth 0 d j = 0
         & forall a b, ent2 H a b = 0]).
Proof.
split=> [self X y w exact M0|self X y w m rdy ne B0].
  rewrite (BackPackGGN_fullE X y w exact).
  case: (String.eqb (likelihood self) "regression");
    by eexists; eexists; split=> // a b; rewrite /= M0 big_ord0.
rewrite (BackPackEF_diagE X y rdy ne) (BackPackEF_fullE X y rdy ne).
have {}B0 : batch_size (forward_loss self X y) = 0%N by [].
have sz : size (scale1 (factor self) (sum_grad_squared (forward_loss self X y) m)) =
          sumn [seq numel p | p <- parameters m].
  by rewrite size_map size_flatten_mkseq.
eexists; eexists; eexists; split; [by [] | by [] | | |].
- by rewrite sz /= sumn_ncols_grad_batches.
- move=> j; case: (ltnP j (sumn [seq numel p | p <- parameters m])) => j_lt.
    rewrite (nth_map 0) ?size_flatten_mkseq //.
    rewrite /sum_grad_squared nth_flatten_sum_squares //.
    by rewrite B0 big_ord0 mulr0.
  by rewrite nth_default // sz.
- by move=> a b; rewrite /= B0 big_ord0 mulr0.
Qed.

(** ** The Empirical Fisher as a Gram matrix *)

Lemma gram_scaled_quadratic_form (a : R) (G : tensor2) (x : nat -> R) :
  \sum_(i < ncols G) \sum_(j < ncols G)
     x i * ent2 (scale2 a (matmul (transpose G) G)) i j * x j =
  a * \sum_(k < nrows G) (\sum_(i < ncols G) x i * ent2 G k i) ^+ 2.
Proof.
rewrite -(gram_quadratic_form _ _ (fun k i => ent2 G k i)) /=.
rewrite mulr_sumr; apply: eq_bigr => i _.
rewrite mulr_sumr; apply: eq_bigr => j _.
by rewrite [x i * _]mulrCA -mulrA.
Qed.

(** X9. The quadratic form of the matrix the Empirical-Fisher [full] returns
    is [factor] times the sum over the examples of the squared directional
    derivatives: [x^T H x = factor * sum_m (g_m . x)^2], [g_m] being the
    gradient of example [m]. *)
Theorem EF_full_quadratic_form (self : BackPackEF) X y w m (x : nat -> R) :
  ready w self m -> parameters m != [::] ->
  let Gs := individual_gradients (forward_loss self X y) m in
  exists l H,
    (full self X y w).2 = Ok (l, H) /\
    \sum_(i < nrows H) \sum_(j < ncols H) x i * ent2 H i j * x j =
    factor self * \sum_(k < nrows Gs) (\sum_(i < ncols Gs) x i * ent2 Gs k i) ^+ 2.
Proof.
move=> rdy ne Gs; rewrite (BackPackEF_fullE X y rdy ne).
eexists; eexists; split; first by [].
exact: gram_scaled_quadratic_form.
Qed.

(** ** The softmax Hessian *)

Section SoftmaxHessian.

Hypothesis exp_gt0 : forall x, 0 < exp eng x.

Lemma sum_exp_gt0 (K : nat) (g : nat -> R) :
  (0 < K)%N -> 0 < \sum_(j < K) exp eng (g j).
Proof.
case: K => // K _; rewrite big_ord_recl ltr_pwDl //.
by apply: sumr_ge0 => j _; exact: ltW.
Qed.

Lemma softmax_ge0 (f : tensor2) m k : 0 <= ent2 (softmax (exp eng) f) m k.
Proof.
rewrite /= divr_ge0 //; first exact: ltW.
by apply: sumr_ge0 => j _; exact: ltW.
Qed.

Lemma softmax_sum1 (f : tensor2) m :
  (0 < ncols f)%N -> \sum_(k < ncols f) ent2 (softmax (exp eng) f) m k = 1.
Proof.
move=> K_pos; rewrite /= -mulr_suml divff //.
by rewrite gt_eqF // (sum_exp_gt0 (fun j => ent2 f m j)).
Qed.

End SoftmaxHessian.

Lemma hessian_quadratic_form (K : nat) (p v : nat -> R) :
  \sum_(c < K) \sum_(k < K)
     v c * ((if c == k :> nat then p c else 0) - p k * p c) * v k =
  \sum_(c < K) p c * v c ^+ 2 - (\sum_(c < K) p c * v c) ^+ 2.
Proof.
under eq_bigr => c _.
  under eq_bigr => k _ do rewrite mulrBr mulrBl.
  rewrite sumrB; over.
rewrite sumrB; congr (_ - _).
  apply: eq_bigr => c _.
  under eq_bigr => k _.
    rewrite (fun_if (fun z => v c * z)) mulr0 (fun_if (fun z => z * v k)) mul0r.
    over.
  rewrite (sum_kronecker (fun k => v c * p c * v k)).
  by rewrite expr2 mulrA [v c * p c]mulrC.
rewrite expr2 mulr_suml; apply: eq_bigr => c _.
rewrite mulr_sumr; apply: eq_bigr => k _.
by rewrite [p k * p c]mulrC mulrA [v c * p c]mulrC -!mulrA.
Qed.

Lemma variance_ge0 (K : nat) (p v : nat -> R) :
  (forall c, 0 <= p c) -> \sum_(c < K) p c = 1 ->
  0 <= \sum_(c < K) p c * v c ^+ 2 - (\sum_(c < K) p c * v c) ^+ 2.
Proof.
move=> p_ge0 p_sum1; set mu := \sum_(c < K) p c * v c.
have -> : \sum_(c < K) p c * v c ^+ 2 - mu ^+ 2 =
          \sum_(c < K) p c * (v c - mu) ^+ 2.
  under [RHS]eq_bigr => c _ do rewrite sqrrB mulrDr mulrBr mulrnAr mulrA.
  rewrite big_split /= sumrB sumrMnl -!mulr_suml p_sum1 mul1r -/mu.
  by rewrite expr2 mulr2n opprD addrA subrK.
by apply: sumr_ge0 => c _; rewrite mulr_ge0 ?sqr_ge0.
Qed.

Lemma quadratic_form_sum (n P : nat) (F : nat -> nat -> nat -> R) (x : nat -> R) :
  \sum_(a < P) \sum_(b < P) x a * (\sum_(i < n) F i a b) * x b =
  \sum_(i < n) \sum_(a < P) \sum_(b < P) x a * F i a b * x b.
Proof.
under eq_bigr => a _.
  under eq_bigr => b _ do rewrite mulr_sumr mulr_suml.
  rewrite exchange_big /=; over.
by rewrite exchange_big.
Qed.

Lemma quadratic_form_factor (P : nat) (u v : nat -> R) (h : R) (x : nat -> R) :
  \sum_(a < P) \sum_(b < P) x a * (u a * h * v b) * x b =
  (\sum_(a < P) x a * u a) * h * (\sum_(b < P) x b * v b).
Proof.
rewrite -mulrA mulr_suml; apply: eq_bigr => a _.
rewrite mulr_sumr mulr_sumr; apply: eq_bigr => b _.
by rewrite !mulrA -[_ * v b * x b]mulrA [v b * x b]mulrC !mulrA.
Qed.

Lemma contraction_quadratic_form (M C K P : nat)
    (J h : nat -> nat -> nat -> R) (x : nat -> R) :
  \sum_(a < P) \sum_(b < P)
     x a * (\sum_(m < M) \sum_(c < C) \sum_(k < K) J m c a * h m c k * J m k b) * x b =
  \sum_(m < M) \sum_(c < C) \sum_(k < K)
     (\sum_(a < P) x a * J m c a) * h m c k * (\sum_(b < P) x b * J m k b).
Proof.
apply: etrans
  (quadratic_form_sum M P
     (fun m a b => \sum_(c < C) \sum_(k < K) J m c a * h m c k * J m k b) x) _.
apply: eq_bigr => m _.
apply: etrans
  (quadratic_form_sum C P
     (fun c a b => \sum_(k < K) J m c a * h m c k * J m k b) x) _.
apply: eq_bigr => c _.
apply: etrans
  (quadratic_form_sum K P (fun k a b => J m c a * h m c k * J m k b) x) _.
apply: eq_bigr => k _.
exact: (quadratic_form_factor P (fun a => J m c a) (fun b => J m k b)).
Qed.

Lemma classification_ggn_psd (exp_gt0 : forall x, 0 < exp eng x) (j : JacResult) :
  positive_semidefinite (full_ggn "classification" j).
Proof.
move=> x; rewrite /full_ggn /=.
rewrite (contraction_quadratic_form (jac_M j) (jac_K j) (jac_K j) (jac_P j) (jac_Js j)
  (fun m c k =>
     (if c == k :> nat then ent2 (softmax (exp eng) (f_of j)) m c else 0)
     - ent2 (softmax (exp eng) (f_of j)) m k * ent2 (softmax (exp eng) (f_of j)) m c)).
apply: sumr_ge0 => m _.
rewrite (hessian_quadratic_form (jac_K j)
           (fun c => ent2 (softmax (exp eng) (f_of j)) m c)
           (fun c => \sum_(a < jac_P j) x a * jac_Js j m c a)).
case K_pos: (0 < jac_K j)%N; last first.
  move/negbT: K_pos; rewrite -eqn0Ngt => /eqP K0.
  by rewrite /= K0 !big_ord0 expr0n /= subr0.
apply: (@variance_ge0 (jac_K j) (fun c => ent2 (softmax (exp eng) (f_of j)) m c)
          (fun c => \sum_(a < jac_P j) x a * jac_Js j m c a)) => [c|].
  exact: (softmax_ge0 exp_gt0).
exact: (softmax_sum1 exp_gt0 (f := f_of j)).
Qed.

Lemma classification_ggn_symmetric (j : JacResult) :
  symmetric (full_ggn "classification" j).
Proof.
split=> //= a b; apply: eq_bigr => m _.
rewrite exchange_big /=; apply: eq_bigr => c _; apply: eq_bigr => k _.
rewrite -mulrA mulrC [X in X * _ = _]mulrC; congr (_ * _ * _).
rewrite [k == c :> nat]eq_sym [X in _ - X]mulrC.
by case: eqP => [->|].
Qed.

(** X10. With a classification likelihood (and an exponential that is
    positive, as the real one is), the matrix [full] of the exact GGN family
    returns is symmetric and positive semidefinite: its quadratic form is the
    sum over the examples of the variance, under the softmax probabilities,
    of the directional derivatives of the logits. *)
Theorem classification_full_ggn_symmetric_psd mdl ll w0 w1 (self : BackPackGGN) :
  (forall x, 0 < exp eng x) ->
  BackPackGGN_init mdl "classification" ll false w0 = (w1, Ok self) ->
  forall X y w,
  exists l H, [/\ (full self X y w).2 = Ok (l, H), symmetric H
                & positive_semidefinite H].
Proof.
move=> exp_gt0.
case/BackPackGGN_init_inv => /BackPackInterface_init_fields [likE _ _ _ _] exact X y w.
rewrite (BackPackGGN_fullE X y w exact) likE.
eexists; eexists; split; first by [].
  exact: classification_ggn_symmetric.
exact: classification_ggn_psd.
Qed.

Lemma softmax_hessian_column_sum (exp_gt0 : forall x, 0 < exp eng x)
    (f : tensor2) (m : nat) (k : 'I_(ncols f)) :
  let p := ent2 (softmax (exp eng) f) m in
  \sum_(c < ncols f) ((if c == k :> nat then p c else 0) - p k * p c) = 0.
Proof.
move=> p.
have K_pos : (0 < ncols f)%N by exact: leq_ltn_trans (leq0n k) (ltn_ord k).
rewrite sumrB -mulr_sumr (softmax_sum1 exp_gt0) // mulr1.
under eq_bigr => c _ do rewrite eq_sym.
by rewrite (sum_kronecker p) subrr.
Qed.

(** X11. The softmax Hessian annihilates shifts of the logits: a parameter
    entry whose Jacobian is the same for every class of each example (a
    single output class is one case) has a zero row and a zero column in the
    matrix [full] of the exact GGN family returns under classification. *)
Theorem classification_ggn_null_direction mdl ll w0 w1 (self : BackPackGGN) :
  (forall x, 0 < exp eng x) ->
  BackPackGGN_init mdl "classification" ll false w0 = (w1, Ok self) ->
  forall X y w a,
  let j := jacobian_result self X in
  (forall m c, (c < jac_K j)%N -> jac_Js j m c a = jac_Js j m 0 a) ->
  exists l H,
    (full self X y w).2 = Ok (l, H) /\
    forall b, ent2 H a b = 0 /\ ent2 H b a = 0.
Proof.
move=> exp_gt0.
case/BackPackGGN_init_inv => /BackPackInterface_init_fields [likE _ _ _ _] exact.
move=> X y w a j shift; rewrite (BackPackGGN_fullE X y w exact) likE.
eexists; eexists; split; first by [].
have row b : ent2 (full_ggn "classification" j) a b = 0.
  rewrite /full_ggn /= big1 // => m _.
  rewrite exchange_big /= big1 // => k _.
  under eq_bigr => c _ do rewrite shift // -mulrA.
  rewrite -mulr_sumr -mulr_suml.
  by rewrite (softmax_hessian_column_sum exp_gt0 (f := f_of j) m k) mul0r mulr0.
move=> b; split; first exact: row.
by have [_ ->] := classification_ggn_symmetric j.
Qed.

End Embedding.

(** * A concrete instance

    A two-parameter model [f(x) = t1 * t0 * x] at [t0 = t1 = 1] over the
    rationals, whose second parameter is the last layer; inputs and targets
    are lists of numbers. *)

(** The two scalar parameters. *)
Definition toy_p0 : Param := mkParam 0 1.
Definition toy_p1 : Param := mkParam 1 1.

(** One output per example: [f(x_m) = x_m]. *)
Definition toy_forward (X : seq rat) : tensor2 rat :=
  T2 (size X) 1 (fun m _ => nth 0 X m).

Definition toy_head : Module rat (seq rat) :=
  mkModule 1 toy_forward [:: toy_p1] None.

Definition toy_net : Module rat (seq rat) :=
  mkModule 0 toy_forward [:: toy_p0; toy_p1] (Some toy_head).

(** The derivative of the output of example [m] in either parameter is [x_m]. *)
Definition toy_jacobians (m : Module rat (seq rat)) (X : seq rat) : JacResult rat :=
  mkJac (size X) 1 (size (parameters m)) (fun m _ _ => nth 0 X m) (fun m _ => nth 0 X m).

Definition toy_last_layer_jacobians (m : Module rat (seq rat)) (X : seq rat)
  : JacResult rat :=
  mkJac (size X) 1 1 (fun m _ _ => nth 0 X m) (fun m _ => nth 0 X m).

(** The sum over the batch of the squared errors. *)
Definition toy_lossfunc_apply (fn : LossFn) (f : tensor2 rat) (y : seq rat) : rat :=
  \sum_(m < nrows f) (ent2 f m 0 - nth 0 y m) ^+ 2.

(** The gradient of the squared error of example [m]: [2 (x_m - y_m) x_m]. *)
Definition toy_grad_batch (l : Loss rat (seq rat) (seq rat)) (p : Param) (m i : nat)
  : rat :=
  2%:R * (nth 0 (out_input (loss_output l)) m - nth 0 (loss_target l) m)
  * nth 0 (out_input (loss_output l)) m.

(** One group of two [1 x 1] factors for each parameter. *)
Definition toy_kron_group (l : Loss rat (seq rat) (seq rat)) (p : Param)
  : seq (tensor2 rat) :=
  [:: T2 1 1 (fun _ _ => 2%:R); T2 1 1 (fun _ _ => 3%:R)].

(** A scalar multiplication of the container: every factor is scaled. *)
Definition toy_Kron_rmul (a : rat) (K : Kron rat) : Kron rat :=
  mkKron [seq [seq scale2 a t | t <- F] | F <- kfacs K].

Definition toy_engine : Engine rat (seq rat) (seq rat) :=
  mkEngine (fun x => 1 + x ^+ 2) size toy_lossfunc_apply
           toy_jacobians toy_last_layer_jacobians
           (fun _ _ _ => 2%:R) (fun _ _ _ => 1)
           toy_kron_group toy_kron_group toy_grad_batch toy_Kron_rmul.

(** The world before any interface is constructed. *)
Definition toy_world : World rat (seq rat) :=
  mkWorld [::] [::] [::] (fun _ _ => None).

Definition toy_interface (lik : string) (ll : bool) : BackPackInterface rat (seq rat) :=
  mkBackPackInterface
    (mkCurvatureInterface lik toy_net (likelihood_lossfunc lik) (likelihood_factor rat lik))
    ll.

Definition toy_ggn (lik : string) (ll st : bool) : BackPackGGN rat (seq rat) :=
  mkBackPackGGN (toy_interface lik ll) st.

Definition toy_ef (lik : string) (ll : bool) : BackPackEF rat (seq rat) :=
  mkBackPackEF (toy_interface lik ll).

(** The world after the construction of an interface on [toy_net]. *)
Definition toy_ready (lik : string) (ll : bool) : World rat (seq rat) :=
  registered (if ll then toy_head else toy_net) (likelihood_lossfunc lik) toy_world.

(** A batch of one example. *)
Definition toy_X : seq rat := [:: 1].
Definition toy_y : seq rat := [:: 0].

(** The exact GGN interfaces under regression and under classification, and
    the worlds their constructors leave. *)
Definition toy_reg : BackPackGGN rat (seq rat) := toy_ggn "regression" false false.
Definition toy_reg_world : World rat (seq rat) := toy_ready "regression" false.

(** The Jacobians of [toy_net] on the one-example batch [toy_X]. *)
Definition toy_J : JacResult rat := jacobian_result toy_engine toy_reg toy_X.

Definition toy_cls : BackPackGGN rat (seq rat) := toy_ggn "classification" false false.
Definition toy_cls_world : World rat (seq rat) := toy_ready "classification" false.

Definition toy_Jc : JacResult rat := jacobian_result toy_engine toy_cls toy_X.

(** The softmax of the raw outputs of [toy_net] on [toy_X]. *)
Definition toy_p (m c : nat) : rat :=
  exp toy_engine (jac_f toy_Jc m c)
  / \sum_(c' < jac_K toy_Jc) exp toy_engine (jac_f toy_Jc m c').

(** The loss tensor of [toy_net] on the batch [(toy_X, toy_y)]. *)
Definition toy_l : Loss rat (seq rat) (seq rat) :=
  forward_loss toy_engine (toy_interface "regression" false) toy_X toy_y.

(** The factor groups BackPACK stores for [toy_net]. *)
Definition toy_groups : seq (seq (tensor2 rat)) :=
  kron_factors toy_engine false toy_l toy_net.

(** The loss tensor of the whole [toy_net], whatever the [last_layer] flag. *)
Definition toy_lc : Loss rat (seq rat) (seq rat) :=
  lossfunc_call toy_engine (likelihood_lossfunc "classification")
                (mkOutput (forward toy_net toy_X) toy_net toy_X) toy_y.

(** ** The instance is built by the constructors *)

Lemma toy_ggn_init lik ll st :
  string_in lik valid_likelihoods ->
  BackPackGGN_init toy_net lik ll st toy_world = (toy_ready lik ll, Ok (toy_ggn lik ll st)).
Proof.
rewrite /BackPackGGN_init /BackPackInterface_init /CurvatureInterface_init /bind.
rewrite /assert /valid_likelihoods => ->.
rewrite /toy_ready /toy_ggn /toy_interface /likelihood_lossfunc /likelihood_factor.
by case: (String.eqb lik "regression"); case: ll.
Qed.

Lemma toy_ef_init lik ll :
  string_in lik valid_likelihoods ->
  BackPackEF_init toy_net lik ll toy_world = (toy_ready lik ll, Ok (toy_ef lik ll)).
Proof.
rewrite /BackPackEF_init /BackPackInterface_init /CurvatureInterface_init /bind.
rewrite /assert /valid_likelihoods => ->.
rewrite /toy_ready /toy_ef /toy_interface /likelihood_lossfunc /likelihood_factor.
by case: (String.eqb lik "regression"); case: ll.
Qed.

Lemma toy_ready_net lik : ready (toy_ready lik false) (toy_interface lik false) toy_net.
Proof. by []. Qed.

Lemma toy_ready_head lik : ready (toy_ready lik true) (toy_interface lik true) toy_head.
Proof. by []. Qed.

(** ** Where the claims C1 and C3 fail *)

Lemma toy_reg_full :
  (BackPackGGN_full toy_engine toy_reg toy_X toy_y toy_reg_world).2 =
  Ok (2%:R^-1 * toy_lossfunc_apply (MSELoss ReduceSum) (f_of toy_J) toy_y,
      einsum_mkp_mkq_pq (Js_of toy_J) (Js_of toy_J)).
Proof. by []. Qed.

Lemma toy_gauss_newton_00 :
  ent2 (einsum_mkp_mkq_pq (Js_of toy_J) (Js_of toy_J)) 0 0 = 1.
Proof. by rewrite /= !big_ord1 /= mulr1. Qed.

Lemma half_neq1 : 1 <> 2%:R^-1 :> rat.
Proof. by []. Qed.

(** C3, counterexample. On the one-example batch [x = 1] the regression
    interface built by the constructor returns a curvature whose entry
    [(0, 0)] is [1 = J^T J], while [0.5 * sum of J^T J] is [0.5]. *)
Lemma regression_full_ggn_not_halved :
  BackPackGGN_init toy_net "regression" false false toy_world =
    (toy_reg_world, Ok toy_reg) /\
  exists l H,
    [/\ (BackPackGGN_full toy_engine toy_reg toy_X toy_y toy_reg_world).2 = Ok (l, H),
        ent2 H 0 0 = 1,
        2%:R^-1 * \sum_(m < jac_M toy_J)
                    ent2 (matmul (transpose (example_jacobian (Js_of toy_J) m))
                                 (example_jacobian (Js_of toy_J) m)) 0 0 = 2%:R^-1
      & ent2 H 0 0 <>
        2%:R^-1 * \sum_(m < jac_M toy_J)
                    ent2 (matmul (transpose (example_jacobian (Js_of toy_J) m))
                                 (example_jacobian (Js_of toy_J) m)) 0 0].
Proof.
split; first exact: toy_ggn_init.
have sumE : 2%:R^-1 * \sum_(m < jac_M toy_J)
              ent2 (matmul (transpose (example_jacobian (Js_of toy_J) m))
                           (example_jacobian (Js_of toy_J) m)) 0 0 = 2%:R^-1 :> rat.
  by rewrite /= !big_ord1 /= !mulr1.
eexists; eexists; split; first exact: toy_reg_full.
- exact: toy_gauss_newton_00.
- exact: sumE.
- by rewrite sumE toy_gauss_newton_00; exact: half_neq1.
Qed.

(** C1, counterexample. For the same interface and batch, the curvature that
    [full] returns is the unscaled contraction itself, not [factor] times
    it: its entry [(0, 0)] is [1], and [factor * 1 = 0.5]. *)
Lemma full_ggn_curvature_not_scaled :
  BackPackGGN_init toy_net "regression" false false toy_world =
    (toy_reg_world, Ok toy_reg) /\
  exists l H,
    [/\ (BackPackGGN_full toy_engine toy_reg toy_X toy_y toy_reg_world).2 = Ok (l, H),
        factor toy_reg = 2%:R^-1,
        ent2 (full_ggn toy_engine "regression" toy_J) 0 0 = 1
      & ent2 H 0 0 <>
        factor toy_reg * ent2 (full_ggn toy_engine "regression" toy_J) 0 0].
Proof.
split; first exact: toy_ggn_init.
have unscaled : ent2 (full_ggn toy_engine "regression" toy_J) 0 0 = 1.
  exact: toy_gauss_newton_00.
eexists; eexists; split; first exact: toy_reg_full.
- by [].
- exact: unscaled.
- by rewrite ?toy_gauss_newton_00 ?unscaled mulr1; exact: half_neq1.
Qed.

(** ** The theorems at the concrete instance *)

(** C7 at [toy_net]: the likelihood [poisson] is refused, [classification]
    is accepted with [last_layer = True]. *)
Lemma likelihood_fixed_at_construction_witness :
  [/\ string_in "poisson" valid_likelihoods = false,
      curvature_module toy_net true = Some toy_head,
      BackPackGGN_init toy_net "poisson" true false toy_world =
        (toy_world, Raise AssertionError)
    & BackPackEF_init toy_net "classification" true toy_world =
        (registered toy_head (CrossEntropyLoss ReduceSum) toy_world,
         Ok (toy_ef "classification" true))].
Proof.
have [bad good] :=
  likelihood_fixed_at_construction toy_net "poisson" true false toy_world.
have [ggn_raises _] := bad (erefl _).
have [_ _ _ ef_cls _] := good toy_head (erefl _).
by split.
Defined.

(** C10 at [toy_net] and the likelihood [poisson]. *)
Lemma failed_construction_registers_nothing_witness :
  string_in "poisson" valid_likelihoods = false /\
  extended_modules (BackPackGGN_init toy_net "poisson" false true toy_world).1 = [::] /\
  extended_lossfuncs (BackPackEF_init toy_net "poisson" false toy_world).1 = [::].
Proof.
have [_ _ _ [ggn_modules _] [_ ef_lossfuncs]] :=
  @failed_construction_registers_nothing _ _ toy_net "poisson" false true toy_world
    (erefl _).
by split.
Defined.

(** C6 for the Empirical-Fisher interface on [toy_net] and the batch
    [(toy_X, toy_y)]. *)
Lemma EF_diag_is_diagonal_of_full_witness :
  [/\ ready (toy_ready "regression" false) (toy_ef "regression" false) toy_net,
      parameters toy_net != [::]
    & exists l d H,
        [/\ (BackPackEF_diag toy_engine (toy_ef "regression" false) toy_X toy_y
               (toy_ready "regression" false)).2 = Ok (l, d),
            (BackPackEF_full toy_engine (toy_ef "regression" false) toy_X toy_y
               (toy_ready "regression" false)).2 = Ok (l, H),
            size d = nrows H /\ nrows H = ncols H
          & forall j, (j < size d)%N -> nth 0 d j = ent2 H j j]].
Proof.
split=> //.
have [l [d [H [diagE fullE shape diagonal _]]]] :=
  @EF_diag_is_diagonal_of_full _ _ _ toy_engine (toy_ef "regression" false)
    toy_X toy_y _ _ toy_net (toy_ready_net "regression") (toy_ready_net "regression")
    (erefl _).
by exists l, d, H.
Defined.

(** C8 for both interfaces on [toy_net] under regression. *)
Lemma full_curvature_symmetric_psd_witness :
  [/\ BackPackEF_init toy_net "regression" false toy_world =
        (toy_ready "regression" false, Ok (toy_ef "regression" false)),
      ready (toy_ready "regression" false) (toy_ef "regression" false) toy_net,
      BackPackGGN_init toy_net "regression" false false toy_world =
        (toy_reg_world, Ok toy_reg),
      exists l H,
        [/\ (BackPackEF_full toy_engine (toy_ef "regression" false) toy_X toy_y
               (toy_ready "regression" false)).2 = Ok (l, H),
            nrows H = 2%N /\ ncols H = 2%N,
            forall i j,
              ent2 H i j =
              likelihood_factor rat "regression"
              * \sum_(k < nrows (individual_gradients toy_engine toy_l toy_net))
                  ent2 (individual_gradients toy_engine toy_l toy_net) k i
                  * ent2 (individual_gradients toy_engine toy_l toy_net) k j,
            symmetric H
          & positive_semidefinite H]
    & exists l H,
        [/\ (BackPackGGN_full toy_engine toy_reg toy_X toy_y toy_reg_world).2 = Ok (l, H),
            nrows H = jac_P toy_J /\ ncols H = jac_P toy_J,
            forall a b,
              ent2 H a b =
              \sum_(m < jac_M toy_J) \sum_(k < jac_K toy_J)
                jac_Js toy_J m k a * jac_Js toy_J m k b,
            symmetric H
          & positive_semidefinite H]].
Proof.
have [ef ggn] :=
  @full_curvature_symmetric_psd _ _ _ toy_engine toy_net "regression" false toy_world.
split.
- exact: toy_ef_init.
- exact: toy_ready_net.
- exact: toy_ggn_init.
- exact: (ef _ _ (@toy_ef_init "regression" false (erefl _)) _ toy_net toy_X toy_y
            (toy_ready_net "regression") (erefl _)).
- exact: (ggn _ _ (@toy_ggn_init "regression" false false (erefl _)) toy_reg_world toy_X toy_y).
Defined.

(** C2 for the exact GGN interface on [toy_net] under classification. *)
Lemma classification_full_ggn_softmax_hessian_witness :
  BackPackGGN_init toy_net "classification" false false toy_world =
    (toy_cls_world, Ok toy_cls) /\
  exists l H,
    [/\ (BackPackGGN_full toy_engine toy_cls toy_X toy_y toy_cls_world).2 = Ok (l, H),
        nrows H = jac_P toy_Jc /\ ncols H = jac_P toy_Jc
      & forall a b,
          ent2 H a b =
          \sum_(m < jac_M toy_Jc) \sum_(c < jac_K toy_Jc) \sum_(k < jac_K toy_Jc)
            jac_Js toy_Jc m c a
            * ((if c == k :> nat then toy_p m c else 0) - toy_p m c * toy_p m k)
            * jac_Js toy_Jc m k b].
Proof.
split; first exact: toy_ggn_init.
exact: (@classification_full_ggn_softmax_hessian _ _ _ toy_engine toy_net false
          toy_world toy_cls_world toy_cls
          (@toy_ggn_init "classification" false false (erefl _))
          toy_X toy_y toy_cls_world).
Defined.

(** C3 (amended) for the exact GGN interface on [toy_net] under regression. *)
Lemma regression_full_ggn_is_gauss_newton_witness :
  BackPackGGN_init toy_net "regression" false false toy_world =
    (toy_reg_world, Ok toy_reg) /\
  exists H,
    [/\ (BackPackGGN_full toy_engine toy_reg toy_X toy_y toy_reg_world).2 =
          Ok (2%:R^-1 * toy_lossfunc_apply (MSELoss ReduceSum) (f_of toy_J) toy_y, H),
        nrows H = jac_P toy_J /\ ncols H = jac_P toy_J
      & forall a b,
          ent2 H a b =
          \sum_(m < jac_M toy_J) ent2 (matmul (transpose (example_jacobian (Js_of toy_J) m))
                                    (example_jacobian (Js_of toy_J) m)) a b].
Proof.
split; first exact: toy_ggn_init.
exact: (@regression_full_ggn_is_gauss_newton _ _ _ toy_engine toy_net false
          toy_world toy_reg_world toy_reg (@toy_ggn_init "regression" false false (erefl _))
          toy_X toy_y toy_reg_world).
Defined.

(** C1 (amended) for both interfaces on [toy_net] under regression, with
    [N = 2]. *)
Lemma factor_scales_loss_and_curvature_witness :
  [/\ BackPackGGN_init toy_net "regression" false false toy_world =
        (toy_reg_world, Ok toy_reg),
      BackPackEF_init toy_net "regression" false toy_world =
        (toy_reg_world, Ok (toy_ef "regression" false)),
      ready toy_reg_world toy_reg toy_net /\ parameters toy_net != [::],
      [/\ (BackPackGGN_diag toy_engine toy_reg toy_X toy_y toy_reg_world).2 =
            Ok (2%:R^-1 * loss_data toy_l,
                scale1 (2%:R^-1) (diag_ggn toy_engine false toy_l toy_net)),
          (BackPackGGN_kron toy_engine toy_reg toy_X toy_y 2 toy_reg_world).2 =
            Ok (2%:R^-1 * loss_data toy_l,
                toy_Kron_rmul (2%:R^-1)
                  (mkKron [seq rescaled_group (1%:R / 2%:R) F
                          | F <- kron_factors toy_engine false toy_l toy_net]))
        & (BackPackGGN_full toy_engine toy_reg toy_X toy_y toy_reg_world).2 =
            Ok (2%:R^-1 * toy_lossfunc_apply (MSELoss ReduceSum) (f_of toy_J) toy_y,
                full_ggn toy_engine "regression" toy_J)]
    & (BackPackEF_diag toy_engine (toy_ef "regression" false) toy_X toy_y
         toy_reg_world).2 =
        Ok (2%:R^-1 * loss_data toy_l,
            scale1 (2%:R^-1) (sum_grad_squared toy_engine toy_l toy_net)) /\
      (BackPackEF_full toy_engine (toy_ef "regression" false) toy_X toy_y
         toy_reg_world).2 =
        Ok (2%:R^-1 * loss_data toy_l,
            scale2 (2%:R^-1)
              (matmul (transpose (individual_gradients toy_engine toy_l toy_net))
                      (individual_gradients toy_engine toy_l toy_net)))].
Proof.
have [_ ggn ef] :=
  @factor_scales_loss_and_curvature _ _ _ toy_engine toy_net "regression" false
    false toy_world.
split.
- exact: toy_ggn_init.
- exact: toy_ef_init.
- by split; first exact: toy_ready_net.
- have [diagE kronE fullE] :=
    ggn _ _ (@toy_ggn_init "regression" false false (erefl _)) toy_reg_world toy_net
        toy_X toy_y 2%N (toy_ready_net "regression") (erefl _) (erefl _).
  by split; [exact: diagE | exact: kronE | exact: (fullE (erefl _))].
- exact: (ef _ _ (@toy_ef_init "regression" false (erefl _)) toy_reg_world toy_net
            toy_X toy_y (toy_ready_net "regression") (erefl _)).
Defined.

(** C4 for the batch of one example and the dataset size [N = 2]. *)
Lemma kron_rescales_second_factor_witness :
  [/\ ready toy_reg_world toy_reg toy_net, (0 < 2)%N
    & exists l groups',
        [/\ (BackPackGGN_kron toy_engine toy_reg toy_X toy_y 2 toy_reg_world).2 =
              Ok (l, toy_Kron_rmul (factor toy_reg) (mkKron groups')),
            size groups' = size toy_groups,
            forall i, (i < size toy_groups)%N ->
              let F := nth [::] toy_groups i in
              let F' := nth [::] groups' i in
              if size F == 2
              then [/\ size F' = 2,
                       nth (tensor2_0 rat) F' 0 = nth (tensor2_0 rat) F 0,
                       nrows (nth (tensor2_0 rat) F' 1) = nrows (nth (tensor2_0 rat) F 1) /\
                       ncols (nth (tensor2_0 rat) F' 1) = ncols (nth (tensor2_0 rat) F 1)
                     & forall r c, ent2 (nth (tensor2_0 rat) F' 1) r c =
                                   ent2 (nth (tensor2_0 rat) F 1) r c
                                   * ((size toy_y)%:R / 2%:R)]
              else F' = F
          & size toy_y = 2 ->
            forall i k, (i < size toy_groups)%N ->
              same_tensor2 (nth (tensor2_0 rat) (nth [::] groups' i) k)
                           (nth (tensor2_0 rat) (nth [::] toy_groups i) k)]].
Proof.
split=> //.
exact: (@kron_rescales_second_factor _ _ _ toy_engine toy_reg toy_X toy_y 2
          toy_reg_world toy_net (toy_ready_net "regression") (erefl _)).
Defined.

(** C9 for the interfaces on [toy_net] with and without [last_layer]. *)
Lemma last_layer_restricts_curvature_only_witness :
  [/\ BackPackGGN_init toy_net "classification" true false toy_world =
        (toy_ready "classification" true, Ok (toy_ggn "classification" true false)),
      BackPackGGN_init toy_net "classification" false false toy_world =
        (toy_ready "classification" false, Ok (toy_ggn "classification" false false)),
      ready (toy_ready "classification" true) (toy_ggn "classification" true false)
            toy_head /\
      ready (toy_ready "classification" false) (toy_ggn "classification" false false)
            toy_net,
      parameters toy_head != [::] /\ parameters toy_net != [::]
    & [/\ attr_last_layer toy_net = Some toy_head,
          (BackPackGGN_diag toy_engine (toy_ggn "classification" true false)
             toy_X toy_y (toy_ready "classification" true)).2 =
            Ok (1 * loss_data toy_lc,
                scale1 1 (diag_ggn toy_engine false toy_lc toy_head)),
          (BackPackGGN_diag toy_engine (toy_ggn "classification" false false)
             toy_X toy_y (toy_ready "classification" false)).2 =
            Ok (1 * loss_data toy_lc,
                scale1 1 (diag_ggn toy_engine false toy_lc toy_net)),
          (BackPackEF_diag toy_engine (toy_ef "classification" true)
             toy_X toy_y (toy_ready "classification" true)).2 =
            Ok (1 * loss_data toy_lc,
                scale1 1 (sum_grad_squared toy_engine toy_lc toy_head))
        & (BackPackEF_diag toy_engine (toy_ef "classification" false)
             toy_X toy_y (toy_ready "classification" false)).2 =
            Ok (1 * loss_data toy_lc,
                scale1 1 (sum_grad_squared toy_engine toy_lc toy_net))]].
Proof.
have [ggn ef] :=
  @last_layer_restricts_curvature_only _ _ _ toy_engine toy_net "classification"
    false toy_world toy_world.
have [lastE ggnT ggnF _ _] :=
  ggn _ _ _ _ (@toy_ggn_init "classification" true false (erefl _))
      (@toy_ggn_init "classification" false false (erefl _))
      _ _ toy_head toy_X toy_y 1%N
      (toy_ready_head "classification") (toy_ready_net "classification")
      (erefl _) (erefl _) (erefl _).
have [_ efT efF _ _] :=
  ef _ _ _ _ (@toy_ef_init "classification" true (erefl _))
     (@toy_ef_init "classification" false (erefl _))
     _ _ toy_head toy_X toy_y
     (toy_ready_head "classification") (toy_ready_net "classification")
     (erefl _) (erefl _).
split.
- exact: toy_ggn_init.
- exact: toy_ggn_init.
- by split; [exact: toy_ready_head | exact: toy_ready_net].
- by [].
- by split; [exact: lastE | exact: ggnT | exact: ggnF | exact: efT | exact: efF].
Defined.

(** ** The operations on the batch of one example *)

(** With [M = 1] and [N = 2] the second factor [3] of a group becomes [3/2]
    and the first one stays [2]. *)
Example toy_rescaled_group :
  ent2 (nth (tensor2_0 rat) (rescaled_group (1%:R / 2%:R) (toy_kron_group toy_l toy_p0)) 0)
       0 0 = 2%:R /\
  ent2 (nth (tensor2_0 rat) (rescaled_group (1%:R / 2%:R) (toy_kron_group toy_l toy_p0)) 1)
       0 0 = 3%:R / 2%:R.
Proof. by rewrite /= div1r. Qed.

(** A dataset size [N = 0] makes [kron] raise at the first group of two
    factors. *)
Example toy_kron_division_by_zero :
  (BackPackGGN_kron toy_engine toy_reg toy_X toy_y 0 toy_reg_world).2 =
  Raise ZeroDivisionError.
Proof. by []. Qed.

(** A model without the attribute [last_layer] cannot be given
    [last_layer = True]. *)
Example toy_head_has_no_last_layer :
  BackPackEF_init toy_head "regression" true toy_world =
  (toy_world, Raise (AttributeError "last_layer")).
Proof. by []. Qed.

(** The Empirical-Fisher diagonal of [toy_net] on [x = 1], [y = 0] under
    regression: each squared gradient is [4], scaled by [0.5]. *)
Example toy_EF_diag :
  (BackPackEF_diag toy_engine (toy_ef "regression" false) toy_X toy_y toy_reg_world).2 =
  Ok (2%:R^-1 * toy_lossfunc_apply (MSELoss ReduceSum) (toy_forward toy_X) toy_y,
      [:: 2%:R^-1 * \sum_(k < 1) toy_grad_batch toy_l toy_p0 k 0 ^+ 2;
          2%:R^-1 * \sum_(k < 1) toy_grad_batch toy_l toy_p1 k 0 ^+ 2]).
Proof. by []. Qed.

(** ** The further properties at the concrete instance *)

Lemma toy_exp_gt0 (x : rat) : 0 < exp toy_engine x.
Proof. by rewrite /= ltr_pwDl ?ltr01 ?sqr_ge0. Qed.

(** X2 at [toy_net], whose factor groups have two factors. *)
Lemma kron_zero_dataset_size_witness :
  ready toy_reg_world toy_reg toy_net /\
  (BackPackGGN_kron toy_engine toy_reg toy_X toy_y 0 toy_reg_world).2 =
  if has (fun F => size F == 2) toy_groups then Raise ZeroDivisionError
  else Ok (factor toy_reg * loss_data toy_l,
           toy_Kron_rmul (factor toy_reg) (mkKron toy_groups)).
Proof.
split; first exact: toy_ready_net.
exact: (@kron_zero_dataset_size _ _ _ toy_engine toy_reg toy_X toy_y toy_reg_world
          toy_net (toy_ready_net "regression")).
Defined.


(** X4 for [kron] with [N = 0] on [toy_net]: the call raises, after the two
    passes have run. *)
Lemma operations_pass_accounting_witness :
  (BackPackGGN_kron toy_engine toy_reg toy_X toy_y 0 toy_reg_world).2 =
    Raise ZeroDivisionError /\
  passes (BackPackGGN_kron toy_engine toy_reg toy_X toy_y 0 toy_reg_world).1 =
    [:: ForwardPass 0; BackwardPass KFLR].
Proof.
have [ggn_passes _] := @operations_pass_accounting _ _ _ toy_engine.
have [_ kron_passes _ _] := ggn_passes toy_reg toy_X toy_y 0%N toy_reg_world.
split; first by [].
exact: kron_passes.
Defined.

(** X5 for a [kron] call that precedes the operations. *)
Lemma results_independent_of_earlier_calls_witness :
  [/\ keeps_modules (BackPackGGN_kron toy_engine toy_reg toy_X toy_y 2),
      ready toy_reg_world (toy_interface "regression" false) toy_net,
      parameters toy_net != [::],
      (BackPackGGN_diag toy_engine toy_reg [:: 2%:R] toy_y
         (BackPackGGN_kron toy_engine toy_reg toy_X toy_y 2 toy_reg_world).1).2 =
      (BackPackGGN_diag toy_engine toy_reg [:: 2%:R] toy_y toy_reg_world).2
    & (BackPackEF_full toy_engine (toy_ef "regression" false) [:: 2%:R] toy_y
         (BackPackGGN_kron toy_engine toy_reg toy_X toy_y 2 toy_reg_world).1).2 =
      (BackPackEF_full toy_engine (toy_ef "regression" false) [:: 2%:R] toy_y
         toy_reg_world).2].
Proof.
have [_ keep _] := (operations_keep_modules toy_engine).1 toy_reg toy_X toy_y 2%N.
have [diagE _ _ fullE] :=
  @results_independent_of_earlier_calls _ _ _ toy_engine _
    (BackPackGGN_kron toy_engine toy_reg toy_X toy_y 2)
    (toy_interface "regression" false) toy_reg_world toy_net
    [:: 2%:R] toy_y 2%N keep (toy_ready_net "regression") (erefl _).
split; [exact: keep | exact: toy_ready_net | by [] | exact: diagE | exact: fullE].
Defined.

(** X6 for the Jacobians of [toy_net] on [toy_X]. *)
Lemma regression_branch_is_identity_hessian_witness :
  likelihood toy_reg = "regression"%string /\
  exists l H,
    _get_full_ggn toy_engine toy_reg (Js_of toy_J) (f_of toy_J) toy_y toy_world =
      (toy_world, Ok (l, H)) /\
    forall p q,
      ent2 H p q =
      ent2 (einsum_mcp_mck_mkq_pq (Js_of toy_J) (identity_hessian (Js_of toy_J))
                                  (Js_of toy_J)) p q.
Proof.
split=> //.
exact: (@regression_branch_is_identity_hessian _ _ _ toy_engine toy_reg
          (Js_of toy_J) (f_of toy_J) toy_y toy_world (erefl _)).
Defined.

(** X7 for the batch [toy_X] stacked on itself. *)
Lemma full_ggn_additive_over_batches_witness :
  [/\ dim1 (Js_of toy_J) = dim1 (Js_of toy_J),
      nrows (f_of toy_J) = dim0 (Js_of toy_J),
      ncols (f_of toy_J) = ncols (f_of toy_J)
    & exists l l1 l2 H H1 H2,
        [/\ _get_full_ggn toy_engine toy_cls
              (cat0_tensor3 (Js_of toy_J) (Js_of toy_J))
              (cat0_tensor2 (f_of toy_J) (f_of toy_J)) toy_y toy_world =
              (toy_world, Ok (l, H)),
            _get_full_ggn toy_engine toy_cls (Js_of toy_J) (f_of toy_J) toy_y
              toy_world = (toy_world, Ok (l1, H1)),
            _get_full_ggn toy_engine toy_cls (Js_of toy_J) (f_of toy_J) toy_y
              toy_world = (toy_world, Ok (l2, H2))
          & forall p q, ent2 H p q = ent2 H1 p q + ent2 H2 p q]].
Proof.
split=> //.
exact: (@full_ggn_additive_over_batches _ _ _ toy_engine toy_cls
          (Js_of toy_J) (Js_of toy_J) (f_of toy_J) (f_of toy_J) toy_y toy_y toy_y
          toy_world (erefl _) (erefl _) (erefl _)).
Defined.

(** X8 for the batch without examples. *)
Lemma empty_batch_zero_curvature_witness :
  [/\ stochastic toy_reg = false,
      jac_M (jacobian_result toy_engine toy_reg [::]) = 0%N,
      ready toy_reg_world (toy_ef "regression" false) toy_net /\
      nrows (forward (model (toy_ef "regression" false)) [::]) = 0%N,
      exists l H,
        [/\ (BackPackGGN_full toy_engine toy_reg [::] [::] toy_reg_world).2 = Ok (l, H),
            nrows H = jac_P (jacobian_result toy_engine toy_reg [::]) /\
            ncols H = jac_P (jacobian_result toy_engine toy_reg [::])
          & forall a b, ent2 H a b = 0]
    & exists l d H,
        [/\ (BackPackEF_diag toy_engine (toy_ef "regression" false) [::] [::]
               toy_reg_world).2 = Ok (l, d),
            (BackPackEF_full toy_engine (toy_ef "regression" false) [::] [::]
               toy_reg_world).2 = Ok (l, H),
            [/\ size d = sumn [seq numel p | p <- parameters toy_net],
                nrows H = size d & ncols H = size d],
            forall j, nth 0 d j = 0
          & forall a b, ent2 H a b = 0]].
Proof.
have [ggn ef] := @empty_batch_zero_curvature _ _ _ toy_engine.
split=> //.
- exact: (ggn toy_reg [::] [::] toy_reg_world (erefl _) (erefl _)).
- exact: (ef (toy_ef "regression" false) [::] [::] toy_reg_world toy_net
            (toy_ready_net "regression") (erefl _) (erefl _)).
Defined.

(** X9 for the direction [x = (1, 1)]. *)
Lemma EF_full_quadratic_form_witness :
  [/\ ready toy_reg_world (toy_ef "regression" false) toy_net,
      parameters toy_net != [::]
    & exists l H,
        (BackPackEF_full toy_engine (toy_ef "regression" false) toy_X toy_y
           toy_reg_world).2 = Ok (l, H) /\
        \sum_(i < nrows H) \sum_(j < ncols H) 1 * ent2 H i j * 1 =
        factor (toy_ef "regression" false)
        * \sum_(k < nrows (individual_gradients toy_engine toy_l toy_net))
            (\sum_(i < ncols (individual_gradients toy_engine toy_l toy_net))
               1 * ent2 (individual_gradients toy_engine toy_l toy_net) k i) ^+ 2].
Proof.
split=> //.
exact: (@EF_full_quadratic_form _ _ _ toy_engine (toy_ef "regression" false)
          toy_X toy_y toy_reg_world toy_net (fun _ => 1)
          (toy_ready_net "regression") (erefl _)).
Defined.

(** X10 for the exact GGN interface on [toy_net] under classification. *)
Lemma classification_full_ggn_symmetric_psd_witness :
  [/\ forall x, 0 < exp toy_engine x,
      BackPackGGN_init toy_net "classification" false false toy_world =
        (toy_cls_world, Ok toy_cls)
    & exists l H,
        [/\ (BackPackGGN_full toy_engine toy_cls toy_X toy_y toy_cls_world).2 = Ok (l, H),
            symmetric H & positive_semidefinite H]].
Proof.
split; [exact: toy_exp_gt0 | exact: toy_ggn_init |].
exact: (@classification_full_ggn_symmetric_psd _ _ _ toy_engine toy_net false
          toy_world toy_cls_world toy_cls toy_exp_gt0
          (@toy_ggn_init "classification" false false (erefl _))
          toy_X toy_y toy_cls_world).
Defined.

(** X11 for the first parameter of [toy_net], whose Jacobian is [x_m] for
    the one class. *)
Lemma classification_ggn_null_direction_witness :
  [/\ forall x, 0 < exp toy_engine x,
      BackPackGGN_init toy_net "classification" false false toy_world =
        (toy_cls_world, Ok toy_cls),
      forall m c, (c < jac_K toy_Jc)%N -> jac_Js toy_Jc m c 0 = jac_Js toy_Jc m 0 0
    & exists l H,
        (BackPackGGN_full toy_engine toy_cls toy_X toy_y toy_cls_world).2 = Ok (l, H) /\
        forall b, ent2 H 0 b = 0 /\ ent2 H b 0 = 0].
Proof.
split; [exact: toy_exp_gt0 | exact: toy_ggn_init | by [] |].
exact: (@classification_ggn_null_direction _ _ _ toy_engine toy_net false
          toy_world toy_cls_world toy_cls toy_exp_gt0
          (@toy_ggn_init "classification" false false (erefl _))
          toy_X toy_y toy_cls_world 0%N (fun _ _ _ => erefl _)).
Defined.
